(** * OpenCello: the mold generator's geometry pipeline

    A shallow embedding of [src/python/mold_gen_blockflats_pins.py]:
    half-plane clipping for the block flats, curvature-based corner
    detection, pin placement and the centerline split.

    Numbers.  Python floats are read as exact rationals ([Q]); the decimal
    constants of the source ([0.25], [1.2], [1e-12], ...) are the same
    decimals here.

    Libraries.  The script delegates the heavy geometry to shapely (GEOS),
    numpy and math.  Those are not part of the repository: their operations
    are the fields of a [Kernel] record that every embedded function takes
    as its first argument.  What can be written down exactly (area by the
    shoelace formula, bounding boxes, emptiness, the geometry type tag,
    [np.linspace], sorting) is defined here. *)

From Stdlib Require Import String.
From Stdlib Require Import QArith Qabs Qminmax ZArith List Bool Lia Lqa.
From Stdlib Require Import Permutation Sorted.
Import ListNotations.

Open Scope Q_scope.

Set Warnings "-register-all".

(** ** Points and shapely geometries *)

Definition point : Type := (Q * Q)%type.

Definition px (p : point) : Q := fst p.
Definition py (p : point) : Q := snd p.

(** The shapely geometry objects the script handles.  A polygon is its
    exterior ring (the script never builds holes); the members of a
    [MultiPolygon] are polygons. *)
Inductive Geometry : Type :=
| GPoint (p : point)
| GLineString (cs : list point)
| GPolygon (shell : list point)
| GMultiPolygon (polys : list (list point))
| GCollection (gs : list Geometry).

(** [g.geom_type] *)
Definition geom_type (g : Geometry) : string :=
  match g with
  | GPoint _ => "Point"
  | GLineString _ => "LineString"
  | GPolygon _ => "Polygon"
  | GMultiPolygon _ => "MultiPolygon"
  | GCollection _ => "GeometryCollection"
  end.

(** [g.geoms] of a multi-part geometry. *)
Definition geoms (g : Geometry) : list Geometry :=
  match g with
  | GMultiPolygon polys => map GPolygon polys
  | GCollection gs => gs
  | _ => [g]
  end.

(** All coordinates of a geometry. *)
Fixpoint coords (g : Geometry) : list point :=
  match g with
  | GPoint p => [p]
  | GLineString cs => cs
  | GPolygon shell => shell
  | GMultiPolygon polys => concat polys
  | GCollection gs => flat_map coords gs
  end.

(** [g.is_empty]: the geometry has no point at all. *)
Definition is_empty (g : Geometry) : bool :=
  match coords g with [] => true | _ :: _ => false end.

(** A ring as shapely stores it: closed, the first vertex repeated at the
    end when the caller did not repeat it. *)
Definition Qeq_point (p q : point) : bool :=
  Qeq_bool (px p) (px q) && Qeq_bool (py p) (py q).

Definition close_ring (shell : list point) : list point :=
  match shell with
  | [] => []
  | p :: _ => if Qeq_point p (last shell p) then shell else shell ++ [p]
  end.

(** Twice the signed area of a closed coordinate sequence (shoelace). *)
Fixpoint shoelace (cs : list point) : Q :=
  match cs with
  | p :: (q :: _) as rest => (px p * py q - px q * py p) + shoelace rest
  | _ => 0
  end.

Definition ring_area (shell : list point) : Q :=
  Qabs (shoelace (close_ring shell)) / 2.

Definition Qsum (l : list Q) : Q := fold_right Qplus 0 l.

(** [g.area] *)
Fixpoint area (g : Geometry) : Q :=
  match g with
  | GPoint _ => 0
  | GLineString _ => 0
  | GPolygon shell => ring_area shell
  | GMultiPolygon polys => Qsum (map ring_area polys)
  | GCollection gs => Qsum (map area gs)
  end.

Definition Qmin_list (d : Q) (l : list Q) : Q :=
  match l with [] => d | x :: t => fold_left Qmin t x end.
Definition Qmax_list (d : Q) (l : list Q) : Q :=
  match l with [] => d | x :: t => fold_left Qmax t x end.

(** [g.bounds] = (minx, miny, maxx, maxy).  shapely answers NaNs for an
    empty geometry; zeros stand for them here. *)
Definition bounds (g : Geometry) : Q * Q * Q * Q :=
  let xs := map px (coords g) in
  let ys := map py (coords g) in
  (Qmin_list 0 xs, Qmin_list 0 ys, Qmax_list 0 xs, Qmax_list 0 ys).

(** ** Sides of a line and of a ring *)

Definition vsub (p q : point) : point := (px p - px q, py p - py q).
Definition dot (p q : point) : Q := px p * px q + py p * py q.

(** Twice the signed area of the triangle [o a b]: positive when [b] is
    to the left of the directed line [o -> a]. *)
Definition cross (o a b : point) : Q :=
  (px a - px o) * (py b - py o) - (py a - py o) * (px b - px o).

(** [p] is on the kept side of the edge [u -> w]; [s] is the orientation
    of the clip ring. *)
Definition kept (s : Q) (u w p : point) : bool :=
  Qle_bool 0 (s * cross u w p).

(** The edges of a ring, the closing one included. *)
Fixpoint pairs (l : list point) : list (point * point) :=
  match l with
  | p :: (q :: _) as rest => (p, q) :: pairs rest
  | _ => []
  end.

Definition edges (ring : list point) : list (point * point) :=
  pairs (close_ring ring).

Definition orientation (ring : list point) : Q :=
  if Qle_bool 0 (shoelace (close_ring ring)) then 1 else -1.

(** [p] is on the inner side of every edge of the ring: inside it, when
    the ring is convex. *)
Definition inside_ring (ring : list point) (p : point) : bool :=
  forallb (fun e => kept (orientation ring) (fst e) (snd e) p) (edges ring).

(** ** The external kernel: shapely, numpy and math *)

Record Kernel : Type := mkKernel {
  (** [math.hypot] *)
  hypot : Q -> Q -> Q;
  (** [np.linalg.norm] of a 2-vector *)
  norm : point -> Q;
  (** [math.acos] *)
  acos : Q -> Q;
  (** [a.intersection(b)] *)
  intersection : Geometry -> Geometry -> Geometry;
  (** [a.contains(b)] *)
  contains : Geometry -> Geometry -> bool;
  (** [g.buffer(r)] *)
  buffer : Geometry -> Q -> Geometry;
  (** [shapely.ops.split(g, line).geoms] *)
  split : Geometry -> Geometry -> list Geometry;
  (** [LineString(cs).length] *)
  line_length : list point -> Q;
  (** [LineString(cs).interpolate(t).coords[0]] *)
  interpolate : list point -> Q -> point
}.

(** ** Exceptions *)

Inductive exn : Type :=
| RuntimeError (msg : string)
| ValueError (msg : string)
| AttributeError (msg : string)
| IndexError (msg : string).

Inductive result (A : Type) : Type :=
| Ok (a : A)
| Raise (e : exn).
Arguments Ok {A} a.
Arguments Raise {A} e.

Definition bind {A B : Type} (r : result A) (f : A -> result B) : result B :=
  match r with
  | Ok a => f a
  | Raise e => Raise e
  end.

Notation "x <- r ;; k" := (bind r (fun x => k))
  (at level 61, r at next level, right associativity).

(** The value of a result, [d] standing for an exception, and whether
    there is one. *)
Definition unwrap {A : Type} (d : A) (r : result A) : A :=
  match r with Ok a => a | Raise _ => d end.

Definition is_ok {A : Type} (r : result A) : bool :=
  match r with Ok _ => true | Raise _ => false end.

(** ** Python built-ins *)

Definition Qltb (x y : Q) : bool := negb (Qle_bool y x).

(** [max(l, key=key)]: the first element whose key is largest;
    [ValueError] on an empty sequence. *)
Definition max_by {A : Type} (key : A -> Q) (l : list A) : result A :=
  match l with
  | [] => Raise (ValueError "max() arg is an empty sequence")
  | x :: t =>
      Ok (fold_left (fun best y => if Qltb (key best) (key y) then y else best) t x)
  end.

(** [sorted(l, key=key, reverse=True)]: descending and stable, elements
    with equal keys keep the order they came in. *)
Fixpoint insert_desc {A : Type} (key : A -> Q) (x : A) (l : list A)
    : list A :=
  match l with
  | [] => [x]
  | y :: t => if Qltb (key x) (key y) then y :: insert_desc key x t
              else x :: y :: t
  end.

Definition sorted_desc {A : Type} (key : A -> Q) (l : list A) : list A :=
  fold_right (insert_desc key) [] l.

(** ** numpy *)

(** [np.linspace(start, stop, n, endpoint=False)] *)
Definition linspace (start stop : Q) (n : nat) : list Q :=
  let step := (stop - start) / inject_Z (Z.of_nat n) in
  map (fun i => inject_Z (Z.of_nat i) * step + start) (seq 0 n).

(** [np.argsort(a)]: the indices of [a] in ascending order of their
    values.  numpy leaves the order of equal values to the sorting
    algorithm; here equal values keep their index order.  The properties
    below use of it only that it lists every index once, in ascending
    order of the values, which holds of numpy's order as well; the order
    of equal values shows in the evaluated examples alone. *)
Fixpoint insert_asc (x : Q * nat) (l : list (Q * nat)) : list (Q * nat) :=
  match l with
  | [] => [x]
  | y :: t => if Qle_bool (fst x) (fst y) then x :: y :: t
              else y :: insert_asc x t
  end.

Definition argsort (a : list Q) : list nat :=
  map snd (fold_right insert_asc [] (combine a (seq 0 (length a)))).

(** ** Geometry helpers: half-plane clipping for flats *)

Section Pipeline.

Variable K : Kernel.

(** [normalize(v)] *)
Definition normalize (v : point) : point :=
  let n := hypot K (px v) (py v) in
  if Qltb n 1e-12 then (0.0, 0.0)
  else (px v / n, py v / n).

(** [half_plane_polygon(p0, n_out, keep_inside, extent)] *)
Definition half_plane_polygon (p0 n_out : point) (keep_inside : bool)
    (extent : Q) : Geometry :=
  let '(nx, ny) := normalize n_out in
  let '(tx, ty) := (- ny, nx) in
  let a := (px p0 + tx * extent, py p0 + ty * extent) in
  let b := (px p0 - tx * extent, py p0 - ty * extent) in
  let '(c, d) :=
    if keep_inside then
      ((px b - nx * extent, py b - ny * extent),
       (px a - nx * extent, py a - ny * extent))
    else
      ((px b + nx * extent, py b + ny * extent),
       (px a + nx * extent, py a + ny * extent)) in
  GPolygon [a; b; c; d].

Definition empty_clip_msg : string :=
  "Flat clipping produced empty geometry. Check parameters.".

(** [clip_with_flat(poly, p0, n_out)] *)
Definition clip_with_flat (poly : Geometry) (p0 n_out : point)
    : result Geometry :=
  let hp := half_plane_polygon p0 n_out true 10000.0 in
  let out := intersection K poly hp in
  if is_empty out then Raise (RuntimeError empty_clip_msg)
  else if String.eqb (geom_type out) "MultiPolygon"
       then max_by area (geoms out)
       else Ok out.

(** ** Corner detection *)

(** [poly.exterior.coords]: only a polygon has an exterior. *)
Definition exterior_coords (g : Geometry) : result (list point) :=
  match g with
  | GPolygon shell => Ok (close_ring shell)
  | _ => Raise (AttributeError "object has no attribute 'exterior'")
  end.

(** [sample_exterior(poly, n)].  On the ring of the empty polygon
    [ring.interpolate(t)] is the empty point, and its [coords[0]] raises
    at the first [t]; without any [t] nothing is looked up. *)
Definition sample_exterior (poly : Geometry) (n : nat)
    : result (list point) :=
  ring <- exterior_coords poly ;;
  let L := line_length K ring in
  let ts := linspace 0 L n in
  match ring, ts with
  | [], _ :: _ => Raise (IndexError "index out of range")
  | _, _ => Ok (map (fun t => interpolate K ring t) ts)
  end.

(** [pts[i]] and [pts[j % N]] (Python's [%] takes the sign of [N]). *)
Definition at_index (pts : list point) (i : nat) : point :=
  nth i pts (0, 0).
Definition at_wrapped (pts : list point) (j : Z) : point :=
  at_index pts (Z.to_nat (j mod Z.of_nat (length pts))).

(** The body of the loop of [curvature_peaks] for the sample [p1] and its
    two neighbours [p0] and [p2]: the value left in [score[i]]. *)
Definition bend (p0 p1 p2 : point) : Q :=
  let v1 := vsub p0 p1 in
  let v2 := vsub p2 p1 in
  let n1 := norm K v1 in
  let n2 := norm K v2 in
  if Qltb n1 1e-9 || Qltb n2 1e-9 then 0
  else
    let v1 := (px v1 / n1, py v1 / n1) in
    let v2 := (px v2 / n2, py v2 / n2) in
    acos K (Qmax (-1.0) (Qmin 1.0 (dot v1 v2))).

Definition score_at (pts : list point) (i : nat) : Q :=
  let p0 := at_wrapped pts (Z.of_nat i - 3) in
  let p1 := at_index pts i in
  let p2 := at_wrapped pts (Z.of_nat i + 3) in
  bend p0 p1 p2.

(** [curvature_peaks(points, k)] returns [(idx, score)]. *)
Definition curvature_peaks (points : list point) (k : Z)
    : list nat * list Q :=
  let pts := points in
  let N := length pts in
  let score := map (score_at pts) (seq 0 N) in
  let idx := argsort (map Qopp score) in
  (idx, score).

(** The coordinate along the length axis ([long], [longcoord]) and the
    one across it ([side]). *)
Definition longcoord (axis_is_x : bool) (p : point) : Q :=
  if axis_is_x then px p else py p.
Definition side (axis_is_x : bool) (p : point) : Q :=
  if axis_is_x then py p else px p.

(** [(lo, hi)] of the waist band. *)
Definition band_limits (poly : Geometry) (axis_is_x : bool) : Q * Q :=
  let '(minx, miny, maxx, maxy) := bounds poly in
  if axis_is_x then
    (minx + 0.25 * (maxx - minx), minx + 0.75 * (maxx - minx))
  else
    (miny + 0.25 * (maxy - miny), miny + 0.75 * (maxy - miny)).

(** [band[i]] *)
Definition band (poly : Geometry) (axis_is_x : bool) (pts : list point)
    (i : nat) : bool :=
  let '(lo, hi) := band_limits poly axis_is_x in
  let long := longcoord axis_is_x (at_index pts i) in
  Qle_bool lo long && Qle_bool long hi.

(** [cand], after the fallback. *)
Definition candidates (idx : list nat) (band : nat -> bool) : list nat :=
  let cand := filter band (firstn 400 idx) in
  if (length cand <? 20)%nat then firstn 400 idx else cand.

(** The inner function [pick_two_by_long(inds)]. *)
Definition pick_two_by_long (longc : nat -> Q) (mid_long : Q)
    (inds : list nat) : list nat :=
  let a := filter (fun i => Qle_bool mid_long (longc i)) inds in
  let b := filter (fun i => Qltb (longc i) mid_long) inds in
  match a, b with
  | a0 :: _, b0 :: _ => [a0; b0]
  | _, _ => firstn 2 inds
  end.

(** The indices [u2 + l2] chosen from the sampled points. *)
Definition corner_indices (poly : Geometry) (axis_is_x : bool)
    (pts : list point) : list nat :=
  let '(minx, miny, maxx, maxy) := bounds poly in
  let cx := 0.5 * (minx + maxx) in
  let cy := 0.5 * (miny + maxy) in
  let mid_long := if axis_is_x then cx else cy in
  let '(idx, score) := curvature_peaks pts 5 in
  let cand := candidates idx (band poly axis_is_x pts) in
  let upper :=
    filter (fun i => Qle_bool 0 (side axis_is_x (at_index pts i))) cand in
  let lower :=
    filter (fun i => Qltb (side axis_is_x (at_index pts i)) 0) cand in
  let longc := fun i => longcoord axis_is_x (at_index pts i) in
  let u2 := pick_two_by_long longc mid_long upper in
  let l2 := pick_two_by_long longc mid_long lower in
  u2 ++ l2.

(** [pick_four_corners(poly, axis_is_x)] returns [(corners, (cx, cy))]. *)
Definition pick_four_corners (poly : Geometry) (axis_is_x : bool)
    : result (list point * point) :=
  pts <- sample_exterior poly 2500 ;;
  let '(minx, miny, maxx, maxy) := bounds poly in
  let cx := 0.5 * (minx + maxx) in
  let cy := 0.5 * (miny + maxy) in
  let corners := map (at_index pts) (corner_indices poly axis_is_x pts) in
  Ok (corners, (cx, cy)).

(** ** Pins and splitting *)

(** [default_pins(poly, axis_is_x, x_center, pin_diam)]; the holes are
    [(x, y, r)].  [x_center] is assigned and never read. *)
Definition default_pins (poly : Geometry) (axis_is_x : bool)
    (x_center : option Q) (pin_diam : Q) : list (Q * Q * Q) :=
  let '(minx, miny, maxx, maxy) := bounds poly in
  let cx := 0.5 * (minx + maxx) in
  let cy := 0.5 * (miny + maxy) in
  let r := 0.5 * pin_diam in
  if axis_is_x then
    let xs := [minx + 0.25 * (maxx - minx); minx + 0.50 * (maxx - minx);
               minx + 0.75 * (maxx - minx)] in
    fold_left
      (fun holes x =>
         let p := GPoint (x, cy) in
         if contains K poly (buffer K p (r * 1.2))
         then holes ++ [(x, cy, r)] else holes)
      xs []
  else
    let ys := [miny + 0.25 * (maxy - miny); miny + 0.50 * (maxy - miny);
               miny + 0.75 * (maxy - miny)] in
    fold_left
      (fun holes y =>
         let p := GPoint (cx, y) in
         if contains K poly (buffer K p (r * 1.2))
         then holes ++ [(cx, y, r)] else holes)
      ys [].

Definition split_msg : string :=
  "Split did not produce two halves. Check axis orientation.".

(** The [splitter] line of [split_halves]. *)
Definition splitter (poly : Geometry) (axis_is_x : bool) : Geometry :=
  let '(minx, miny, maxx, maxy) := bounds poly in
  let cx := 0.5 * (minx + maxx) in
  let cy := 0.5 * (miny + maxy) in
  if axis_is_x then GLineString [(minx - 1000, cy); (maxx + 1000, cy)]
  else GLineString [(cx, miny - 1000); (cx, maxy + 1000)].

(** [split_halves(poly, axis_is_x)] *)
Definition split_halves (poly : Geometry) (axis_is_x : bool)
    : result (Geometry * Geometry) :=
  let parts := split K poly (splitter poly axis_is_x) in
  if (length parts <? 2)%nat then Raise (RuntimeError split_msg)
  else
    match firstn 2 (sorted_desc area parts) with
    | [g0; g1] => Ok (g0, g1)
    | _ => Raise (IndexError "list index out of range")
    end.

End Pipeline.

(** ** DXF documents and the rest of the run-time

    ezdxf's documents are read and written through their modelspace, a
    sequence of entities.  Of an entity the script looks at its type, the
    points and the closed flag of a light-weight polyline, and it writes
    polylines and circles on named layers. *)

Inductive Entity : Type :=
| LwPolyline (pts : list point) (closed : bool) (layer : string)
| Circle (center : point) (radius : Q) (layer : string)
| Line (start stop : point) (layer : string).

(** The files written so far, the latest last. *)
Definition Files : Type := list (string * list Entity).

(** What reading an outline and [main] use besides the [Kernel]:
    shapely's [Polygon] constructor, which refuses some coordinate
    sequences, its [is_valid], and math's [radians], [cos] and [sin]. *)
Record Runtime : Type := mkRuntime {
  make_polygon : list point -> result Geometry;
  is_valid : Geometry -> bool;
  radians : Q -> Q;
  cos : Q -> Q;
  sin : Q -> Q
}.

(** The command line of [main]; the input path stands for the modelspace
    read from it. *)
Record Args : Type := mkArgs {
  out_prefix : string;
  axis : string;
  neck_flat_mm : Q;
  end_flat_mm : Q;
  corner_flat_mm : Q;
  corner_angle_deg : Q;
  pin_diam_mm : Q
}.

Definition no_outline_msg : string :=
  "No closed LWPOLYLINE found. Ensure your outline is a single closed polyline in DXF.".

Definition bad_outline_msg : string :=
  "Outline polygon invalid/empty after cleanup. Check DXF.".

(** The first half of the loop body of
    [read_first_closed_lwpolyline_as_polygon]: the points of an entity
    that qualifies, closed explicitly, and [None] where the loop
    [continue]s. *)
Definition closed_points (e : Entity) : option (list point) :=
  match e with
  | LwPolyline pts closed _ =>
      if (length pts <? 3)%nat then None
      else
        let first := hd (0, 0) pts in
        if negb (Qeq_point first (last pts (0, 0))) then
          if negb closed then None else Some (pts ++ [first])
        else Some pts
  | _ => None
  end.

(** [(max(xs) - min(xs)) * (max(ys) - min(ys))] *)
Definition bbox_score (pts : list point) : Q :=
  let xs := map px pts in
  let ys := map py pts in
  (Qmax_list 0 xs - Qmin_list 0 xs) * (Qmax_list 0 ys - Qmin_list 0 ys).

(** One turn of the loop on the state [(best, best_score)]. *)
Definition read_step (st : option (list point) * Q) (e : Entity)
    : option (list point) * Q :=
  match closed_points e with
  | None => st
  | Some pts =>
      let score := bbox_score pts in
      if Qltb (snd st) score then (Some pts, score) else st
  end.

(** [best] after the loop. *)
Definition best_outline (msp : list Entity) : option (list point) :=
  fst (fold_left read_step msp (None, -1.0)).

Section InputOutput.

Variable K : Kernel.
Variable R : Runtime.

(** [read_first_closed_lwpolyline_as_polygon(dxf_path)], on the
    modelspace of the document at [dxf_path]. *)
Definition read_first_closed_lwpolyline_as_polygon (msp : list Entity)
    : result Geometry :=
  match best_outline msp with
  | None => Raise (RuntimeError no_outline_msg)
  | Some best =>
      poly <- make_polygon R best ;;
      let poly :=
        if negb (is_valid R poly) || Qle_bool (area poly) 0
        then buffer K poly 0 else poly in
      if is_empty poly then Raise (RuntimeError bad_outline_msg)
      else Ok poly
  end.

(** [write_polygon_and_holes_to_dxf(out_path, poly, holes, layer_outline,
    layer_holes)]: the new document is saved under [out_path]. *)
Definition write_polygon_and_holes_to_dxf (out_path : string)
    (poly : Geometry) (holes : list (Q * Q * Q))
    (layer_outline layer_holes : string) (fs : Files)
    : Files * result unit :=
  match exterior_coords poly with
  | Raise e => (fs, Raise e)
  | Ok coords =>
      let outline := LwPolyline coords true layer_outline in
      let circles :=
        map (fun h : Q * Q * Q =>
               Circle (fst (fst h), snd (fst h)) (snd h) layer_holes)
            holes in
      (fs ++ [(out_path, outline :: circles)], Ok tt)
  end.

(** The neck and end flats of [main]: two cuts across the length axis,
    both placed from the bounds of the outline as read. *)
Definition neck_end_flats (poly : Geometry) (axis_is_x : bool) (args : Args)
    : result Geometry :=
  let '(minx, miny, maxx, maxy) := bounds poly in
  let cx := 0.5 * (minx + maxx) in
  let cy := 0.5 * (miny + maxy) in
  if axis_is_x then
    let x_neck := maxx - neck_flat_mm args in
    let x_end := minx + end_flat_mm args in
    poly <- clip_with_flat K poly (x_neck, cy) (1, 0) ;;
    clip_with_flat K poly (x_end, cy) (-1, 0)
  else
    let y_neck := maxy - neck_flat_mm args in
    let y_end := miny + end_flat_mm args in
    poly <- clip_with_flat K poly (cx, y_neck) (0, 1) ;;
    clip_with_flat K poly (cx, y_end) (0, -1).

(** The outward normal of the flat at the corner [c]: [n_out] in the loop
    over the corners. *)
Definition corner_normal (axis_is_x : bool) (base c centre : point) : point :=
  let sx := if Qle_bool 0 (px c - px centre) then 1 else -1 in
  let sy := if Qle_bool 0 (py c - py centre) then 1 else -1 in
  if axis_is_x then (sx * px base, sy * py base)
  else (sy * py base, sx * px base).

(** The anchor [p0] of that flat, [depth] inwards from the corner. *)
Definition corner_anchor (c n_out : point) (depth : Q) : point :=
  let '(nx, ny) := normalize K n_out in
  (px c - nx * depth, py c - ny * depth).

(** The loop over the corners. *)
Definition corner_flats (poly : Geometry) (axis_is_x : bool)
    (base centre : point) (depth : Q) (corners : list point)
    : result Geometry :=
  fold_left
    (fun acc c =>
       poly <- acc ;;
       let n_out := corner_normal axis_is_x base c centre in
       clip_with_flat K poly (corner_anchor c n_out depth) n_out)
    corners (Ok poly).

(** All the flats of [main], from the outline as read to the polygon that
    is exported. *)
Definition cut_flats (poly : Geometry) (args : Args) : result Geometry :=
  let axis_is_x := String.eqb (axis args) "x" in
  poly <- neck_end_flats poly axis_is_x args ;;
  found <- pick_four_corners K poly axis_is_x ;;
  let '(corners, centre) := found in
  let ang := radians R (corner_angle_deg args) in
  let base := if axis_is_x then (cos R ang, sin R ang)
              else (sin R ang, cos R ang) in
  corner_flats poly axis_is_x base centre (corner_flat_mm args) corners.

(** [main()], from the modelspace of the input document and the files
    there are to the files there are afterwards; what it prints is left
    out. *)
Definition main (args : Args) (msp : list Entity) (fs : Files)
    : Files * result unit :=
  let axis_is_x := String.eqb (axis args) "x" in
  match poly <- read_first_closed_lwpolyline_as_polygon msp ;;
        cut_flats poly args with
  | Raise e => (fs, Raise e)
  | Ok poly =>
      let holes := default_pins K poly axis_is_x None (pin_diam_mm args) in
      let full_path := (out_prefix args ++ "_full.dxf")%string in
      match write_polygon_and_holes_to_dxf full_path poly holes
              "CUT" "PINS" fs with
      | (fs, Raise e) => (fs, Raise e)
      | (fs, Ok _) =>
          match split_halves K poly axis_is_x with
          | Raise e => (fs, Raise e)
          | Ok (halfA, halfB) =>
              match write_polygon_and_holes_to_dxf
                      (out_prefix args ++ "_halfA.dxf")%string halfA holes
                      "CUT" "PINS" fs with
              | (fs, Raise e) => (fs, Raise e)
              | (fs, Ok _) =>
                  write_polygon_and_holes_to_dxf
                    (out_prefix args ++ "_halfB.dxf")%string halfB holes
                    "CUT" "PINS" fs
              end
          end
      end
  end.

End InputOutput.

(** ** A reference kernel

    An executable instance of [Kernel], used to run the pipeline on
    concrete outlines.  Its geometry is exact on convex polygons: the
    intersection clips the subject ring against each edge of the clip
    ring in turn (Sutherland-Hodgman), containment tests every vertex
    against every edge, and the split cuts by the two sides of the line.
    Square roots are taken to twelve decimals (exactly on perfect
    squares), the arc cosine by a truncated power series. *)

Module Ref.

Definition Qsqrt (q : Q) : Q :=
  let s := (10 ^ 12)%Z in
  Qred (Z.sqrt (Qnum q * Zpos (Qden q) * s * s)
        # Pos.mul (Qden q) (Z.to_pos s)).

Definition hypot (x y : Q) : Q :=
  if Qeq_bool x 0 then Qred (Qabs y)
  else if Qeq_bool y 0 then Qred (Qabs x)
  else Qsqrt (Qred (x * x + y * y)).

Definition norm (p : point) : Q := hypot (px p) (py p).

(** Rounding down to twelve decimals. *)
Definition round12 (q : Q) : Q :=
  let s := (10 ^ 12)%Z in
  Qred ((Qnum q * s / Zpos (Qden q))%Z # Z.to_pos s).

Definition acos (x : Q) : Q :=
  let x := round12 x in
  round12 (1.5707963268
           - (x + x * x * x / 6 + 3 * x * x * x * x * x / 40)).

(** Where the segment [p q] meets the line through [u] and [w]. *)
Definition meet (u w p q : point) : point :=
  let fp := cross u w p in
  let fq := cross u w q in
  let t := fp / (fp - fq) in
  (Qred (px p + t * (px q - px p)), Qred (py p + t * (py q - py p))).

Fixpoint clip_edge_from (s : Q) (u w prev : point) (l : list point)
    : list point :=
  match l with
  | [] => []
  | cur :: t =>
      (if kept s u w cur then
         if kept s u w prev then [cur] else [meet u w prev cur; cur]
       else
         if kept s u w prev then [meet u w prev cur] else [])
      ++ clip_edge_from s u w cur t
  end.

Definition clip_edge (s : Q) (u w : point) (l : list point) : list point :=
  clip_edge_from s u w (last l (0, 0)) l.

Definition clip_ring (subject clip : list point) : list point :=
  fold_left (fun acc e => clip_edge (orientation clip) (fst e) (snd e) acc)
            (edges clip) subject.

(** Lexicographic order on points, for the two ends of a flat ring. *)
Definition lex_le (p q : point) : bool :=
  Qltb (px p) (px q) || (Qeq_bool (px p) (px q) && Qle_bool (py p) (py q)).

Definition lex_min (p : point) (l : list point) : point :=
  fold_left (fun m q => if lex_le m q then m else q) l p.
Definition lex_max (p : point) (l : list point) : point :=
  fold_left (fun m q => if lex_le m q then q else m) l p.

(** The geometry a clipped ring stands for: nothing, a point, a segment
    (a ring that encloses no area) or a polygon. *)
Definition as_geometry (l : list point) : Geometry :=
  match l with
  | [] => GPolygon []
  | p :: t =>
      if Qltb 0 (ring_area l) then GPolygon l
      else if Qeq_point (lex_min p t) (lex_max p t) then GPoint p
      else GLineString [lex_min p t; lex_max p t]
  end.

Definition intersection (a b : Geometry) : Geometry :=
  match a, b with
  | GPolygon s, GPolygon c => as_geometry (clip_ring s c)
  | _, _ => GPolygon []
  end.

Definition contains (a b : Geometry) : bool :=
  match a with
  | GPolygon ring =>
      negb (is_empty b) && forallb (inside_ring ring) (coords b)
  | _ => false
  end.

(** A disk as a polygon inscribed in the circle: twelve vertices taken
    from the 3-4-5 triangle, all at distance [r] from the centre. *)
Definition buffer (g : Geometry) (r : Q) : Geometry :=
  match g with
  | GPoint (x, y) =>
      GPolygon
        (map (fun d => (Qred (x + fst d * r), Qred (y + snd d * r)))
           [(1, 0); (0.8, 0.6); (0.6, 0.8); (0, 1); (-0.6, 0.8); (-0.8, 0.6);
            (-1, 0); (-0.8, -0.6); (-0.6, -0.8); (0, -1); (0.6, -0.8);
            (0.8, -0.6)])
  | _ => g
  end.

Definition split (g line : Geometry) : list Geometry :=
  match g, line with
  | GPolygon ring, GLineString [u; w] =>
      filter (fun h => Qltb 0 (area h))
        [GPolygon (clip_edge 1 u w ring); GPolygon (clip_edge (-1) u w ring)]
  | _, _ => [g]
  end.

Definition seg_length (p q : point) : Q :=
  hypot (px q - px p) (py q - py p).

Fixpoint line_length (cs : list point) : Q :=
  match cs with
  | p :: (q :: _) as rest => Qred (seg_length p q + line_length rest)
  | _ => 0
  end.

Fixpoint interpolate (cs : list point) (t : Q) : point :=
  match cs with
  | [] => (0, 0)
  | p :: rest =>
      match rest with
      | [] => p
      | q :: _ =>
          let len := seg_length p q in
          if Qle_bool t len then
            if Qle_bool t 0 then p
            else (Qred (px p + (t / len) * (px q - px p)),
                  Qred (py p + (t / len) * (py q - py p)))
          else interpolate rest (Qred (t - len))
      end
  end.

Definition kernel : Kernel :=
  mkKernel hypot norm acos intersection contains buffer split
           line_length interpolate.

(** The reference kernel with the answer of the boolean operation given:
    for outlines that are not convex, which the edge-by-edge clip does not
    cover. *)
Definition answering (out : Geometry) : Kernel :=
  mkKernel hypot norm acos (fun _ _ => out) contains buffer split
           line_length interpolate.

End Ref.

(** The rest of the run-time for the reference kernel.  A ring of fewer
    than four coordinates is refused, as shapely 2 does; a polygon counts
    as valid when it is convex and encloses some area; the trigonometric
    functions are truncated power series. *)

Module RefHost.

Definition make_polygon (cs : list point) : result Geometry :=
  if (length (close_ring cs) <? 4)%nat
  then Raise (ValueError "A linearring requires at least 4 coordinates.")
  else Ok (GPolygon cs).

Definition is_valid (g : Geometry) : bool :=
  match g with
  | GPolygon ring =>
      Qltb 0 (ring_area ring) && forallb (inside_ring ring) ring
  | _ => true
  end.

Definition radians (d : Q) : Q := Ref.round12 (d * 3.14159265359 / 180).

Definition cos (x : Q) : Q :=
  let x := Ref.round12 x in
  let x2 := Ref.round12 (x * x) in
  Ref.round12 (1 - x2 / 2 + x2 * x2 / 24 - x2 * x2 * x2 / 720
               + x2 * x2 * x2 * x2 / 40320).

Definition sin (x : Q) : Q :=
  let x := Ref.round12 x in
  let x2 := Ref.round12 (x * x) in
  Ref.round12 (x * (1 - x2 / 6 + x2 * x2 / 120 - x2 * x2 * x2 / 5040
                    + x2 * x2 * x2 * x2 / 362880)).

Definition runtime : Runtime :=
  mkRuntime make_polygon is_valid radians cos sin.

(** The reference kernel, its intersection checked: an answer larger
    than the first operand is replaced by the empty polygon. *)
Definition checked_intersection (a b : Geometry) : Geometry :=
  let out := Ref.intersection a b in
  if Qle_bool (area out) (area a) then out else GPolygon [].

Definition checked : Kernel :=
  mkKernel Ref.hypot Ref.norm Ref.acos checked_intersection Ref.contains
           Ref.buffer Ref.split Ref.line_length Ref.interpolate.

End RefHost.

(** ** Example outlines *)

(** The 400 x 200 rectangle of the end-to-end scenario, lower left corner
    at the origin. *)
Definition rect_400_200 : Geometry :=
  GPolygon [(0, 0); (400, 0); (400, 200); (0, 200)].

(** The same rectangle centred on the length axis. *)
Definition rect_centred : Geometry :=
  GPolygon [(0, -100); (400, -100); (400, 100); (0, 100)].

(** The boundary samples of the 400 x 200 rectangle. *)
Definition rect_samples : list point :=
  match sample_exterior Ref.kernel rect_400_200 2500 with
  | Ok pts => pts
  | Raise _ => []
  end.

(** Two unit-high rectangles far behind a cut line through the origin
    that removes [x > 0]: one across the far edge of the keep ring, at
    [x = -10000], one wholly beyond it. *)
Definition far_rect : Geometry :=
  GPolygon [(-10001, 0); (-9999, 0); (-9999, 1); (-10001, 1)].

Definition distant_rect : Geometry :=
  GPolygon [(-20001, 0); (-19999, 0); (-19999, 1); (-20001, 1)].

(** The unit square, its left edge on the line [x = 0]. *)
Definition unit_square : Geometry :=
  GPolygon [(0, 0); (1, 0); (1, 1); (0, 1)].

(** A C-shaped outline, open towards [+x]: a spine over [0 <= x <= 2] and
    two prongs reaching [x = 10], the lower one 2 high, the upper one 3
    high.  Cutting the spine away at [x = 5] leaves the two prongs. *)
Definition c_shape : Geometry :=
  GPolygon [(0, 0); (10, 0); (10, 2); (2, 2); (2, 4); (10, 4); (10, 7); (0, 7)].

Definition lower_prong : list point := [(5, 0); (10, 0); (10, 2); (5, 2)].
Definition upper_prong : list point := [(5, 4); (10, 4); (10, 7); (5, 7)].

(** The C-shaped outline with a tab on the inside of its spine: the tab
    reaches [x = 5] and its end, from [(5, 2.5)] to [(5, 3.5)], lies on
    the cut line there. *)
Definition tabbed_c_shape : Geometry :=
  GPolygon [(0, 0); (10, 0); (10, 2); (2, 2); (2, 2.5); (5, 2.5); (5, 3.5);
            (2, 3.5); (2, 4); (10, 4); (10, 7); (0, 7)].

(** What it has in common with the keep region of the cut at [x = 5]:
    the two prongs and the end of the tab. *)
Definition prongs_and_tab_end : list Geometry :=
  [GPolygon lower_prong; GPolygon upper_prong;
   GLineString [(5, 2.5); (5, 3.5)]].

(** A command line: the depths of the end-to-end scenario, with the
    corner flats cut across the length axis (a corner angle of 0). *)
Definition axial_args : Args :=
  mkArgs "mold" "x" 62.0 58.0 34.0 0.0 6.0.

(** A modelspace with a line, an open polyline, a 2 x 2 square closed by
    its flag, a 4 x 1 rectangle closed by repeating its first point, and
    a circle. *)
Definition sample_doc : list Entity :=
  [Line (0, 0) (1, 1) "0";
   LwPolyline [(0, 0); (1, 0); (1, 1)] false "0";
   LwPolyline [(0, 0); (2, 0); (2, 2); (0, 2)] true "0";
   LwPolyline [(0, 0); (4, 0); (4, 1); (0, 1); (0, 0)] false "0";
   Circle (1, 1) 3 "PINS"].

(** ** Orders used to state what the sorts achieve *)

Definition desc {A : Type} (key : A -> Q) (a b : A) : Prop := key b <= key a.

Definition asc (x y : Q * nat) : Prop := fst x <= fst y.

(** The (value, index) pairs of [argsort], sorted. *)
Definition keyed (a : list Q) : list (Q * nat) :=
  fold_right insert_asc [] (combine a (seq 0 (length a))).

(** The extent of the outline along the length axis. *)
Definition long_extent (poly : Geometry) (axis_is_x : bool) : Q * Q :=
  let '(minx, miny, maxx, maxy) := bounds poly in
  if axis_is_x then (minx, maxx) else (miny, maxy).

(** The three pin positions tried by [default_pins]: a quarter, a half
    and three quarters of the way along the length axis, on the lateral
    centreline of the bounding box. *)
Definition pin_candidates (poly : Geometry) (axis_is_x : bool) : list point :=
  let '(minx, miny, maxx, maxy) := bounds poly in
  let cx := 0.5 * (minx + maxx) in
  let cy := 0.5 * (miny + maxy) in
  if axis_is_x then
    [(minx + 0.25 * (maxx - minx), cy); (minx + 0.50 * (maxx - minx), cy);
     (minx + 0.75 * (maxx - minx), cy)]
  else
    [(cx, miny + 0.25 * (maxy - miny)); (cx, miny + 0.50 * (maxy - miny));
     (cx, miny + 0.75 * (maxy - miny))].

(** ** The cut line and the keep region *)

(** The signed offset of [v] from the cut line through [p0] with outward
    normal [n]: [(v - p0) . n], positive on the side that is removed. *)
Definition offset (p0 n v : point) : Q := dot (vsub v p0) n.

(** The direction of the cut line for the unit normal [u]. *)
Definition tangent (u : point) : point := (- py u, px u).

(** The ring [a, b, c, d] built by [half_plane_polygon] with
    [keep_inside = True], for the normalized normal [u]: the keep side of
    the cut line, out to [extent] either way along the line and [extent]
    deep. *)
Definition keep_quad (p0 u : point) (extent : Q) : list point :=
  let a := (px p0 + - py u * extent, py p0 + px u * extent) in
  let b := (px p0 - - py u * extent, py p0 - px u * extent) in
  [a; b; (px b - px u * extent, py b - py u * extent);
   (px a - px u * extent, py a - py u * extent)].

(** ** What is asked of the kernel for one call

    The boolean operations are shapely's.  Three facts about its answer are
    used, each for the operands of the call at hand. *)

(** The intersection is no larger than its first operand. *)
Definition adds_no_area (K : Kernel) (a b : Geometry) : Prop :=
  area (intersection K a b) <= area a.

(** Operands on opposite sides of some line share no point. *)
Definition separates_soundly (K : Kernel) (a b : Geometry) : Prop :=
  forall p0 n : point,
    Forall (fun v => 0 < offset p0 n v) (coords a) ->
    Forall (fun v => offset p0 n v <= 0) (coords b) ->
    is_empty (intersection K a b) = true.

(** A polygon whose vertices all lie in the clip ring comes back whole. *)
Definition returns_contained (K : Kernel) (shell quad : list point) : Prop :=
  Forall (fun v => inside_ring quad v = true) shell ->
  exists out : list point,
    intersection K (GPolygon shell) (GPolygon quad) = GPolygon out /\
    out <> [] /\ ring_area out == ring_area shell.

(** ** What the corner ranking guarantees *)

(** The corners are samples of the boundary of [poly], each taken at an
    index among the first 400 of the curvature ranking of the 2500
    samples, and no sample outside those 400 scores higher. *)
Definition drawn_from_top_400 (K : Kernel) (poly : Geometry)
    (corners : list point) : Prop :=
  exists (pts : list point) (idx : list nat) (score : list Q),
    sample_exterior K poly 2500 = Ok pts /\
    length pts = 2500%nat /\
    curvature_peaks K pts 5 = (idx, score) /\
    length (firstn 400 idx) = 400%nat /\
    Forall
      (fun p => exists i : nat,
           In i (firstn 400 idx) /\ p = at_index pts i /\
           forall j : nat, (j < 2500)%nat -> ~ In j (firstn 400 idx) ->
                           nth j score 0 <= nth i score 0)
      corners.

(** ** Vocabulary of the further properties *)

(** What the loop has established after the entities [msp]. *)
Definition read_state (msp : list Entity) (st : option (list point) * Q)
    : Prop :=
  match fst st with
  | None => snd st < 0 /\ Forall (fun e => closed_points e = None) msp
  | Some best =>
      snd st = bbox_score best /\
      exists (before : list Entity) (e : Entity) (after : list Entity),
        msp = before ++ e :: after /\
        closed_points e = Some best /\
        Forall (fun e' => forall pts, closed_points e' = Some pts ->
                                      bbox_score pts < bbox_score best)
               before /\
        Forall (fun e' => forall pts, closed_points e' = Some pts ->
                                      bbox_score pts <= bbox_score best)
               after
  end.

(** The ring built with [keep_inside = False]. *)
Definition remove_quad (p0 u : point) (extent : Q) : list point :=
  let a := (px p0 + - py u * extent, py p0 + px u * extent) in
  let b := (px p0 - - py u * extent, py p0 - px u * extent) in
  [a; b; (px b + px u * extent, py b + py u * extent);
   (px a + px u * extent, py a + py u * extent)].

(** The centre of the bounding box, and where it lies along the length
    axis. *)
Definition bbox_centre (g : Geometry) : point :=
  let '(minx, miny, maxx, maxy) := bounds g in
  (0.5 * (minx + maxx), 0.5 * (miny + maxy)).

Definition mid_long (poly : Geometry) (axis_is_x : bool) : Q :=
  longcoord axis_is_x (bbox_centre poly).

(** The quadrant of a point about the length axis and the middle of the
    bounding box: above the axis or below, at or past the middle or
    before it. *)
Definition quadrant (axis_is_x : bool) (mid : Q) (up near : bool)
    (p : point) : bool :=
  Bool.eqb (Qle_bool 0 (side axis_is_x p)) up
  && Bool.eqb (Qle_bool mid (longcoord axis_is_x p)) near.

(** [x] is the first entry of [l] that satisfies [f]. *)
Definition first_in {A : Type} (l : list A) (f : A -> bool) (x : A) : Prop :=
  exists before after : list A,
    l = before ++ x :: after /\ f x = true /\
    Forall (fun y => f y = false) before.

(** What one side of the length axis gives, [q near] telling the
    candidates of its near and of its far quadrant: the first candidate of
    each or, one of the two quadrants holding none, the first two
    candidates of the side. *)
Definition side_choice (cand : list nat) (q : bool -> nat -> bool)
    (sel : list nat) : Prop :=
  (exists i j : nat,
     sel = [i; j] /\ first_in cand (q true) i /\ first_in cand (q false) j)
  \/ ((Forall (fun k => q true k = false) cand
       \/ Forall (fun k => q false k = false) cand)
      /\ sel = firstn 2 (filter (fun k => q true k || q false k) cand)).

(** The circles written for the pin holes. *)
Definition circles_of (holes : list (Q * Q * Q)) : list Entity :=
  map (fun h : Q * Q * Q => Circle (fst (fst h), snd (fst h)) (snd h) "PINS")
      holes.

(** Closes a comparison of two given rationals by evaluating it. *)
Ltac by_computation :=
  first [ apply Qle_bool_iff | idtac ];
  vm_compute; reflexivity.

(** * Properties *)

(** ** Comparisons *)

Lemma Qltb_true (x y : Q) : Qltb x y = true <-> x < y.
Proof.
  unfold Qltb. rewrite negb_true_iff.
  split; intro H.
  - apply Qnot_le_lt. intro Hle. apply Qle_bool_iff in Hle. congruence.
  - destruct (Qle_bool y x) eqn:E; [|reflexivity].
    apply Qle_bool_iff in E. exfalso. eapply Qlt_not_le; eauto.
Qed.

Lemma Qltb_false (x y : Q) : Qltb x y = false <-> y <= x.
Proof.
  unfold Qltb. rewrite negb_false_iff. apply Qle_bool_iff.
Qed.

Lemma Qle_bool_false (x y : Q) : Qle_bool x y = false -> y < x.
Proof.
  intro H. apply Qnot_le_lt. intro Hle. apply Qle_bool_iff in Hle. congruence.
Qed.

(** ** [max] with a key *)

Lemma fold_max_spec {A : Type} (key : A -> Q) (t : list A) (x : A) :
  let m := fold_left
             (fun best y => if Qltb (key best) (key y) then y else best) t x in
  In m (x :: t) /\ forall y, In y (x :: t) -> key y <= key m.
Proof.
  revert x. induction t as [|z t IH]; intros x; simpl.
  - split; [now left|]. intros y [<-|[]]. apply Qle_refl.
  - destruct (Qltb (key x) (key z)) eqn:E.
    + destruct (IH z) as [Hin Hmax]. split.
      * right. exact Hin.
      * intros y [<-|Hy].
        -- apply Qltb_true in E. apply Qlt_le_weak in E.
           eapply Qle_trans; [exact E|]. apply Hmax. now left.
        -- apply Hmax. exact Hy.
    + destruct (IH x) as [Hin Hmax]. split.
      * destruct Hin as [<-|Hin]; [now left|]. right. now right.
      * intros y [<-|[<-|Hy]].
        -- apply Hmax. now left.
        -- apply Qltb_false in E.
           eapply Qle_trans; [exact E|]. apply Hmax. now left.
        -- apply Hmax. now right.
Qed.

Lemma max_by_spec {A : Type} (key : A -> Q) (l : list A) :
  l <> [] ->
  exists m, max_by key l = Ok m /\ In m l /\ forall y, In y l -> key y <= key m.
Proof.
  destruct l as [|x t]; [congruence|]. intros _.
  eexists. split; [reflexivity|]. apply fold_max_spec.
Qed.

(** ** Sorting *)

Lemma insert_desc_perm {A : Type} (key : A -> Q) (x : A) (l : list A) :
  Permutation (insert_desc key x l) (x :: l).
Proof.
  induction l as [|y t IH]; simpl; [reflexivity|].
  destruct (Qltb (key x) (key y)); [|reflexivity].
  rewrite IH. apply perm_swap.
Qed.

Lemma sorted_desc_perm {A : Type} (key : A -> Q) (l : list A) :
  Permutation (sorted_desc key l) l.
Proof.
  induction l as [|x t IH]; simpl; [reflexivity|].
  rewrite insert_desc_perm. now constructor.
Qed.

Lemma insert_desc_sorted {A : Type} (key : A -> Q) (x : A) (l : list A) :
  StronglySorted (desc key) l -> StronglySorted (desc key) (insert_desc key x l).
Proof.
  induction 1 as [|y t Hs IH Hall]; simpl.
  - repeat constructor.
  - destruct (Qltb (key x) (key y)) eqn:E.
    + constructor; [exact IH|].
      apply (Permutation_Forall (Permutation_sym (insert_desc_perm key x t))).
      constructor; [|exact Hall].
      apply Qltb_true in E. now apply Qlt_le_weak.
    + apply Qltb_false in E. constructor.
      * now constructor.
      * constructor; [exact E|].
        eapply Forall_impl; [|exact Hall].
        intros z Hz. unfold desc in *. eapply Qle_trans; eauto.
Qed.

Lemma sorted_desc_sorted {A : Type} (key : A -> Q) (l : list A) :
  StronglySorted (desc key) (sorted_desc key l).
Proof.
  induction l as [|x t IH]; simpl; [constructor|].
  now apply insert_desc_sorted.
Qed.

Lemma insert_asc_perm (x : Q * nat) (l : list (Q * nat)) :
  Permutation (insert_asc x l) (x :: l).
Proof.
  induction l as [|y t IH]; simpl; [reflexivity|].
  destruct (Qle_bool (fst x) (fst y)); [reflexivity|].
  rewrite IH. apply perm_swap.
Qed.

Lemma insert_asc_sorted (x : Q * nat) (l : list (Q * nat)) :
  StronglySorted asc l -> StronglySorted asc (insert_asc x l).
Proof.
  induction 1 as [|y t Hs IH Hall]; simpl.
  - repeat constructor.
  - destruct (Qle_bool (fst x) (fst y)) eqn:E.
    + apply Qle_bool_iff in E. constructor.
      * now constructor.
      * constructor; [exact E|].
        eapply Forall_impl; [|exact Hall].
        intros z Hz. unfold asc in *. eapply Qle_trans; eauto.
    + constructor; [exact IH|].
      apply (Permutation_Forall (Permutation_sym (insert_asc_perm x t))).
      constructor; [|exact Hall].
      apply Qle_bool_false in E. now apply Qlt_le_weak.
Qed.

Lemma keyed_perm (a : list Q) :
  Permutation (keyed a) (combine a (seq 0 (length a))).
Proof.
  unfold keyed. induction (combine a (seq 0 (length a))) as [|x t IH];
    simpl; [reflexivity|].
  rewrite insert_asc_perm. now constructor.
Qed.

Lemma keyed_sorted (a : list Q) : StronglySorted asc (keyed a).
Proof.
  unfold keyed. induction (combine a (seq 0 (length a))) as [|x t IH];
    simpl; [constructor|].
  now apply insert_asc_sorted.
Qed.

Lemma combine_seq_snd {A : Type} (a : list A) (s : nat) :
  map snd (combine a (seq s (length a))) = seq s (length a).
Proof.
  revert s. induction a as [|x t IH]; intros s; simpl; [reflexivity|].
  now rewrite IH.
Qed.

Lemma combine_seq_nth (a : list Q) (s : nat) (v : Q) (i : nat) :
  In (v, i) (combine a (seq s (length a))) ->
  (s <= i)%nat /\ v = nth (i - s) a 0.
Proof.
  revert s. induction a as [|x t IH]; intros s; simpl; [tauto|].
  intros [H|H].
  - inversion H; subst. split; [lia|]. now rewrite Nat.sub_diag.
  - apply IH in H. destruct H as [Hle ->]. split; [lia|].
    replace (i - s)%nat with (S (i - S s)) by lia. reflexivity.
Qed.

(** [argsort] lists every index exactly once. *)
Lemma argsort_perm (a : list Q) :
  Permutation (argsort a) (seq 0 (length a)).
Proof.
  unfold argsort. fold (keyed a).
  rewrite (Permutation_map snd (keyed_perm a)).
  now rewrite combine_seq_snd.
Qed.

Lemma argsort_length (a : list Q) : length (argsort a) = length a.
Proof.
  rewrite (Permutation_length (argsort_perm a)). apply length_seq.
Qed.

Lemma argsort_NoDup (a : list Q) : NoDup (argsort a).
Proof.
  apply (Permutation_NoDup (Permutation_sym (argsort_perm a))).
  apply seq_NoDup.
Qed.

Lemma argsort_In (a : list Q) (i : nat) :
  In i (argsort a) <-> (i < length a)%nat.
Proof.
  split; intro H.
  - apply (Permutation_in _ (argsort_perm a)) in H.
    apply in_seq in H. lia.
  - apply (Permutation_in _ (Permutation_sym (argsort_perm a))).
    apply in_seq. lia.
Qed.

Lemma In_firstn_In {A : Type} (n : nat) (l : list A) (x : A) :
  In x (firstn n l) -> In x l.
Proof.
  intro H. rewrite <- (firstn_skipn n l). apply in_or_app. now left.
Qed.

Lemma In_skipn_In {A : Type} (n : nat) (l : list A) (x : A) :
  In x (skipn n l) -> In x l.
Proof.
  intro H. rewrite <- (firstn_skipn n l). apply in_or_app. now right.
Qed.

Lemma filter_none {A : Type} (f : A -> bool) (l : list A) :
  (forall x, In x l -> f x = false) -> filter f l = [].
Proof.
  induction l as [|x t IH]; intro H; simpl; [reflexivity|].
  rewrite (H x) by now left. apply IH. intros y Hy. apply H. now right.
Qed.

(** In a sorted list, whatever comes within the first [n] entries is no
    larger than whatever comes after them. *)
Lemma sorted_firstn_skipn {A : Type} (R : A -> A -> Prop) (l : list A)
    (n : nat) (x y : A) :
  StronglySorted R l -> In x (firstn n l) -> In y (skipn n l) -> R x y.
Proof.
  intros Hs. revert n. induction Hs as [|z t Hs IH Hall]; intros n Hx Hy.
  - destruct n; simpl in Hx; contradiction.
  - destruct n as [|n]; simpl in Hx, Hy; [contradiction|].
    destruct Hx as [->|Hx].
    + rewrite Forall_forall in Hall. apply Hall.
      eapply In_skipn_In. exact Hy.
    + eapply IH; eauto.
Qed.

(** The entries of [argsort a] before position [n] hold values no larger
    than any index left out of them. *)
Lemma argsort_top (a : list Q) (n i j : nat) :
  In i (firstn n (argsort a)) ->
  (j < length a)%nat ->
  ~ In j (firstn n (argsort a)) ->
  nth i a 0 <= nth j a 0.
Proof.
  intros Hi Hj Hnj.
  assert (Hjs : In j (skipn n (argsort a))).
  { apply (argsort_In a) in Hj.
    rewrite <- (firstn_skipn n (argsort a)) in Hj.
    apply in_app_or in Hj. tauto. }
  unfold argsort in Hi, Hjs. fold (keyed a) in Hi, Hjs.
  rewrite firstn_map in Hi. rewrite skipn_map in Hjs.
  apply in_map_iff in Hi. destruct Hi as [[vi i'] [Ei Hi]].
  apply in_map_iff in Hjs. destruct Hjs as [[vj j'] [Ej Hjs]].
  simpl in Ei, Ej. subst i' j'.
  pose proof (sorted_firstn_skipn asc (keyed a) n _ _
                (keyed_sorted a) Hi Hjs) as Hle.
  unfold asc in Hle. simpl in Hle.
  apply In_firstn_In in Hi. apply In_skipn_In in Hjs.
  apply (Permutation_in _ (keyed_perm a)) in Hi.
  apply (Permutation_in _ (keyed_perm a)) in Hjs.
  apply combine_seq_nth in Hi. apply combine_seq_nth in Hjs.
  destruct Hi as [_ Hi]. destruct Hjs as [_ Hjs].
  rewrite Nat.sub_0_r in Hi, Hjs. now rewrite <- Hi, <- Hjs.
Qed.

(** ** Corner detection *)

Section CornerFacts.

Variable K : Kernel.

Lemma sample_exterior_points (poly : Geometry) (n : nat) (pts : list point) :
  sample_exterior K poly n = Ok pts ->
  exists ring,
    exterior_coords poly = Ok ring /\
    pts = map (fun t => interpolate K ring t)
              (linspace 0 (line_length K ring) n).
Proof.
  unfold sample_exterior, bind.
  destruct (exterior_coords poly) as [ring|e]; [|discriminate].
  intro H. exists ring. split; [reflexivity|].
  destruct ring as [|p ring].
  - destruct (linspace 0 (line_length K []) n); [|discriminate].
    now inversion H.
  - now inversion H.
Qed.

Lemma sample_exterior_length (poly : Geometry) (n : nat) (pts : list point) :
  sample_exterior K poly n = Ok pts -> length pts = n.
Proof.
  intro H. destruct (sample_exterior_points _ _ _ H) as (ring & _ & ->).
  unfold linspace. now rewrite !length_map, length_seq.
Qed.

Lemma curvature_scores_length (pts : list point) (k : Z) :
  length (snd (curvature_peaks K pts k)) = length pts.
Proof.
  unfold curvature_peaks. simpl. now rewrite length_map, length_seq.
Qed.

Lemma curvature_idx_length (pts : list point) (k : Z) :
  length (fst (curvature_peaks K pts k)) = length pts.
Proof.
  unfold curvature_peaks. simpl.
  now rewrite argsort_length, !length_map, length_seq.
Qed.

Lemma curvature_score_nth (pts : list point) (k : Z) (i : nat) :
  (i < length pts)%nat ->
  nth i (snd (curvature_peaks K pts k)) 0 = score_at K pts i.
Proof.
  intro Hi. unfold curvature_peaks. simpl.
  rewrite (nth_indep _ 0 (score_at K pts 0%nat))
    by now rewrite length_map, length_seq.
  rewrite map_nth. now rewrite seq_nth.
Qed.

(** A sample among the first [n] of [idx] scores at least as high as any
    sample outside them. *)
Lemma curvature_rank (pts : list point) (k : Z) (n i j : nat) :
  In i (firstn n (fst (curvature_peaks K pts k))) ->
  (j < length pts)%nat ->
  ~ In j (firstn n (fst (curvature_peaks K pts k))) ->
  nth j (snd (curvature_peaks K pts k)) 0
    <= nth i (snd (curvature_peaks K pts k)) 0.
Proof.
  unfold curvature_peaks. simpl.
  set (score := map (score_at K pts) (seq 0 (length pts))).
  intros Hi Hj Hnj.
  assert (Hlen : length (map Qopp score) = length pts).
  { unfold score. now rewrite !length_map, length_seq. }
  pose proof (argsort_top (map Qopp score) n i j Hi) as H.
  rewrite Hlen in H. specialize (H Hj Hnj).
  change 0 with (Qopp 0) in H. rewrite !map_nth in H.
  apply Qopp_le_compat in H. now rewrite !Qopp_involutive in H.
Qed.

Lemma candidates_top (idx : list nat) (b : nat -> bool) (i : nat) :
  In i (candidates idx b) -> In i (firstn 400 idx).
Proof.
  unfold candidates.
  destruct (length (filter b (firstn 400 idx)) <? 20)%nat; [easy|].
  intro H. now apply filter_In in H.
Qed.

Lemma pick_two_by_long_incl (longc : nat -> Q) (mid : Q) (inds : list nat)
    (i : nat) :
  In i (pick_two_by_long longc mid inds) -> In i inds.
Proof.
  unfold pick_two_by_long.
  destruct (filter (fun i => Qle_bool mid (longc i)) inds) as [|a0 ta] eqn:Ea;
    [apply In_firstn_In|].
  destruct (filter (fun i => Qltb (longc i) mid) inds) as [|b0 tb] eqn:Eb;
    [apply In_firstn_In|].
  intros [<-|[<-|[]]].
  - assert (H : In a0 (a0 :: ta)) by now left.
    rewrite <- Ea in H. now apply filter_In in H.
  - assert (H : In b0 (b0 :: tb)) by now left.
    rewrite <- Eb in H. now apply filter_In in H.
Qed.

Lemma pick_two_by_long_length (longc : nat -> Q) (mid : Q) (inds : list nat) :
  (length (pick_two_by_long longc mid inds) <= 2)%nat.
Proof.
  unfold pick_two_by_long.
  destruct (filter (fun i => Qle_bool mid (longc i)) inds) as [|a0 ta];
    [rewrite length_firstn; lia|].
  destruct (filter (fun i => Qltb (longc i) mid) inds) as [|b0 tb];
    [rewrite length_firstn; lia|].
  simpl. lia.
Qed.

(** Every chosen index is one of the candidates. *)
Lemma corner_indices_candidates (poly : Geometry) (axis_is_x : bool)
    (pts : list point) (i : nat) :
  In i (corner_indices K poly axis_is_x pts) ->
  In i (candidates (fst (curvature_peaks K pts 5))
                   (band poly axis_is_x pts)).
Proof.
  unfold corner_indices.
  destruct (bounds poly) as [[[minx miny] maxx] maxy].
  destruct (curvature_peaks K pts 5) as [idx score]. simpl.
  intro H. apply in_app_or in H.
  destruct H as [H|H]; apply pick_two_by_long_incl in H;
    now apply filter_In in H.
Qed.

End CornerFacts.

(** C9.  [curvature_peaks] does not depend on its parameter [k]: any two
    values of [k] give the same index ordering and the same scores, and
    the score of sample [i] is computed from the samples three places
    before and three places after it (wrapping around), whatever [k]. *)
Theorem curvature_peaks_ignores_k (K : Kernel) (points : list point)
    (k1 k2 : Z) :
  curvature_peaks K points k1 = curvature_peaks K points k2 /\
  forall i : nat, (i < length points)%nat ->
    nth i (snd (curvature_peaks K points k1)) 0
    = bend K (at_wrapped points (Z.of_nat i - 3)) (at_index points i)
             (at_wrapped points (Z.of_nat i + 3)).
Proof.
  split.
  - unfold curvature_peaks. reflexivity.
  - intros i Hi. rewrite curvature_score_nth by exact Hi.
    unfold score_at. reflexivity.
Qed.

(** C10.  Every corner returned by [pick_four_corners] is one of the
    2500 boundary samples, taken at an index among the first 400 of the
    curvature ranking; no sample outside those 400 has a higher score. *)
Theorem corners_from_top_400 (K : Kernel) (poly : Geometry)
    (axis_is_x : bool) (corners : list point) (c : point) :
  pick_four_corners K poly axis_is_x = Ok (corners, c) ->
  drawn_from_top_400 K poly corners.
Proof.
  unfold pick_four_corners, drawn_from_top_400, bind.
  destruct (sample_exterior K poly 2500) as [pts|e] eqn:Es; [|discriminate].
  destruct (bounds poly) as [[[minx miny] maxx] maxy].
  intro H. inversion H; subst corners c. clear H.
  pose proof (sample_exterior_length K _ _ _ Es) as Hlen.
  exists pts, (fst (curvature_peaks K pts 5)), (snd (curvature_peaks K pts 5)).
  split; [reflexivity|]. split; [exact Hlen|].
  split; [now destruct (curvature_peaks K pts 5)|].
  split.
  { rewrite length_firstn, curvature_idx_length, Hlen. reflexivity. }
  apply Forall_forall. intros p Hp.
  apply in_map_iff in Hp. destruct Hp as [i [<- Hi]].
  apply corner_indices_candidates in Hi. apply candidates_top in Hi.
  exists i. split; [exact Hi|]. split; [reflexivity|].
  intros j Hj Hnj. apply curvature_rank with (n := 400%nat); try assumption.
  now rewrite Hlen.
Qed.

(** C8.  The waist band runs from 25% to 75% of the extent along the
    length axis, the central half of it.  The candidates are the top 400 of
    the ranking that lie in the band when there are at least 20 of them,
    and the whole top 400 otherwise; every corner is chosen among the
    candidates. *)
Theorem waist_band_candidates (K : Kernel) (poly : Geometry)
    (axis_is_x : bool) (pts : list point) :
  let lmin := fst (long_extent poly axis_is_x) in
  let lmax := snd (long_extent poly axis_is_x) in
  let lo := fst (band_limits poly axis_is_x) in
  let hi := snd (band_limits poly axis_is_x) in
  let top := firstn 400 (fst (curvature_peaks K pts 5)) in
  let inband := filter (band poly axis_is_x pts) top in
  let cand := candidates (fst (curvature_peaks K pts 5))
                         (band poly axis_is_x pts) in
  (lo == lmin + (lmax - lmin) / 4 /\ hi == lmin + 3 * (lmax - lmin) / 4 /\
   hi - lo == (lmax - lmin) / 2 /\ lo - lmin == lmax - hi) /\
  (forall i : nat,
      band poly axis_is_x pts i = true <->
      lo <= longcoord axis_is_x (at_index pts i) <= hi) /\
  ((20 <= length inband)%nat ->
   cand = inband /\
   Forall (fun i => lo <= longcoord axis_is_x (at_index pts i) <= hi) cand) /\
  ((length inband < 20)%nat -> cand = top) /\
  Forall (fun i => In i cand) (corner_indices K poly axis_is_x pts).
Proof.
  cbv zeta.
  assert (Hband : forall i : nat,
      band poly axis_is_x pts i = true <->
      fst (band_limits poly axis_is_x)
        <= longcoord axis_is_x (at_index pts i)
        <= snd (band_limits poly axis_is_x)).
  { intro i. unfold band.
    destruct (band_limits poly axis_is_x) as [lo hi]. simpl.
    rewrite andb_true_iff, !Qle_bool_iff. reflexivity. }
  split; [|split; [exact Hband|split; [|split]]].
  - unfold band_limits, long_extent.
    destruct (bounds poly) as [[[minx miny] maxx] maxy].
    destruct axis_is_x; simpl; repeat split; field.
  - intro H. unfold candidates.
    apply Nat.ltb_ge in H. rewrite H. split; [reflexivity|].
    apply Forall_forall. intros i Hi. apply filter_In in Hi.
    apply Hband. tauto.
  - intro H. unfold candidates. apply Nat.ltb_lt in H. now rewrite H.
  - apply Forall_forall. intros i Hi.
    now apply corner_indices_candidates.
Qed.

(** C2 fails on the code.  The corner count falls short of four when one
    side of the length axis holds no sample: with every sample at a
    lateral coordinate of at least zero the lower group is empty and at
    most two corners come back. *)
Theorem pick_four_corners_one_sided (K : Kernel) (poly : Geometry)
    (axis_is_x : bool) (pts corners : list point) (c : point) :
  sample_exterior K poly 2500 = Ok pts ->
  Forall (fun p => 0 <= side axis_is_x p) pts ->
  pick_four_corners K poly axis_is_x = Ok (corners, c) ->
  (length corners <= 2)%nat.
Proof.
  intros Es Hside. unfold pick_four_corners, bind. rewrite Es.
  destruct (bounds poly) as [[[minx miny] maxx] maxy] eqn:Eb.
  intro H. inversion H; subst corners c. clear H.
  rewrite length_map. unfold corner_indices. rewrite Eb.
  destruct (curvature_peaks K pts 5) as [idx score] eqn:Ec.
  set (cand := candidates idx (band poly axis_is_x pts)).
  assert (Hlow : filter (fun i => Qltb (side axis_is_x (at_index pts i)) 0)
                        cand = []).
  { apply filter_none. intros i Hi. apply Qltb_false.
    apply candidates_top in Hi. apply In_firstn_In in Hi.
    assert (Hi' : In i (fst (curvature_peaks K pts 5)))
      by now rewrite Ec.
    unfold curvature_peaks in Hi'. simpl in Hi'.
    apply argsort_In in Hi'. rewrite !length_map, length_seq in Hi'.
    rewrite Forall_forall in Hside. apply Hside.
    unfold at_index. now apply nth_In. }
  rewrite Hlow, length_app.
  pose proof (pick_two_by_long_length
                (fun i => longcoord axis_is_x (at_index pts i))
                (if axis_is_x then 0.5 * (minx + maxx) else 0.5 * (miny + maxy))
                (filter (fun i => Qle_bool 0 (side axis_is_x (at_index pts i)))
                        cand)) as Hu.
  simpl. lia.
Qed.

(** ** Pins *)

(** C3.  [default_pins] returns at most three holes.  They are exactly
    the candidate positions whose validation disk, of radius 1.2 times
    the pin radius, the polygon contains, in the order tried and each
    with the pin radius; the other candidates are left out and nothing
    is raised. *)
Theorem default_pins_validated (K : Kernel) (poly : Geometry)
    (axis_is_x : bool) (x_center : option Q) (pin_diam : Q) :
  let holes := default_pins K poly axis_is_x x_center pin_diam in
  let r := 0.5 * pin_diam in
  let valid := fun p : point => contains K poly (buffer K (GPoint p) (r * 1.2)) in
  (length holes <= 3)%nat /\
  r * 1.2 == 1.2 * (pin_diam / 2) /\
  Forall (fun h : Q * Q * Q =>
            snd h = r /\ In (fst h) (pin_candidates poly axis_is_x) /\
            valid (fst h) = true) holes /\
  holes = map (fun p : point => (fst p, snd p, r))
              (filter valid (pin_candidates poly axis_is_x)).
Proof.
  cbv zeta.
  assert (Hr : 0.5 * pin_diam * 1.2 == 1.2 * (pin_diam / 2)) by field.
  assert (Heq : default_pins K poly axis_is_x x_center pin_diam
                = map (fun p : point => (fst p, snd p, 0.5 * pin_diam))
                    (filter (fun p : point =>
                               contains K poly
                                 (buffer K (GPoint p) (0.5 * pin_diam * 1.2)))
                            (pin_candidates poly axis_is_x))).
  { unfold default_pins, pin_candidates.
    destruct (bounds poly) as [[[minx miny] maxx] maxy].
    destruct axis_is_x; simpl;
      repeat match goal with
             | |- context [contains K poly ?g] =>
                 destruct (contains K poly g); simpl
             end; reflexivity. }
  split; [|split; [exact Hr|split; [|exact Heq]]].
  - rewrite Heq, length_map.
    eapply Nat.le_trans; [apply filter_length_le|].
    unfold pin_candidates.
    destruct (bounds poly) as [[[minx miny] maxx] maxy].
    destruct axis_is_x; simpl; lia.
  - rewrite Heq. apply Forall_forall. intros h Hh.
    apply in_map_iff in Hh. destruct Hh as [[x y] [<- Hp]].
    apply filter_In in Hp. simpl. tauto.
Qed.

(** ** Splitting *)

(** C4.  The line [split_halves] divides by is the centreline: it runs
    through the centre of the bounding box along the length axis, from
    1000 before the box to 1000 past it.  [split_halves] raises the split
    error when the division by that line yields fewer than two pieces.
    Otherwise it returns two of the pieces, the first at least as large
    as the second and the second at least as large as every piece left
    out. *)
Theorem split_halves_two_largest (K : Kernel) (poly : Geometry)
    (axis_is_x : bool) :
  let '(minx, miny, maxx, maxy) := bounds poly in
  let '(cx, cy) := bbox_centre poly in
  let centreline :=
    if axis_is_x then GLineString [(minx - 1000, cy); (maxx + 1000, cy)]
    else GLineString [(cx, miny - 1000); (cx, maxy + 1000)] in
  let parts := split K poly centreline in
  ((length parts < 2)%nat ->
   split_halves K poly axis_is_x = Raise (RuntimeError split_msg)) /\
  ((2 <= length parts)%nat ->
   exists (g0 g1 : Geometry) (rest : list Geometry),
     split_halves K poly axis_is_x = Ok (g0, g1) /\
     Permutation (g0 :: g1 :: rest) parts /\
     area g1 <= area g0 /\
     Forall (fun g => area g <= area g1) rest).
Proof.
  unfold split_halves, splitter, bbox_centre.
  destruct (bounds poly) as [[[minx miny] maxx] maxy].
  cbv zeta.
  set (parts := split K poly _).
  split; intro Hlen.
  - apply Nat.ltb_lt in Hlen. now rewrite Hlen.
  - pose proof (sorted_desc_perm area parts) as Hperm.
    pose proof (sorted_desc_sorted area parts) as Hsort.
    pose proof (Permutation_length Hperm) as Hl.
    destruct (sorted_desc area parts) as [|g0 [|g1 rest]];
      simpl in Hl; try lia.
    apply Nat.ltb_ge in Hlen. rewrite Hlen. simpl.
    exists g0, g1, rest. split; [reflexivity|]. split; [exact Hperm|].
    inversion Hsort as [|? ? Hs1 H0]; subst.
    inversion Hs1 as [|? ? Hs2 H1]; subst.
    inversion H0; subst. split; assumption.
Qed.

(** ** The keep region of a flat *)

Lemma normalize_scales (K : Kernel) (n : point) :
  exists l : Q, 0 <= l /\
    px (normalize K n) == l * px n /\ py (normalize K n) == l * py n.
Proof.
  unfold normalize.
  destruct (Qltb (hypot K (px n) (py n)) 1e-12) eqn:E.
  - exists 0. simpl.
    repeat split; try apply Qle_refl; rewrite Qmult_0_l; reflexivity.
  - apply Qltb_false in E.
    assert (Hpos : 0 < hypot K (px n) (py n)).
    { eapply Qlt_le_trans; [|exact E]. reflexivity. }
    exists (/ hypot K (px n) (py n)). simpl. split.
    + apply Qlt_le_weak. now apply Qinv_lt_0_compat.
    + split; field; lra.
Qed.

Lemma half_plane_polygon_quad (K : Kernel) (p0 n : point) (extent : Q) :
  half_plane_polygon K p0 n true extent
  = GPolygon (keep_quad p0 (normalize K n) extent).
Proof.
  unfold half_plane_polygon, keep_quad.
  destruct (normalize K n) as [ux uy]. reflexivity.
Qed.

(** The four vertices of the keep ring are on the keep side of the cut
    line, whatever the normal. *)
Lemma quad_on_keep_side (K : Kernel) (p0 n : point) (extent : Q) :
  0 <= extent ->
  Forall (fun v => offset p0 n v <= 0)
         (coords (half_plane_polygon K p0 n true extent)).
Proof.
  intro HE.
  destruct (normalize_scales K n) as [l [Hl [Hx Hy]]].
  rewrite half_plane_polygon_quad. unfold keep_quad.
  destruct (normalize K n) as [ux uy]. simpl in Hx, Hy. simpl.
  assert (Hsq : 0 <= l * extent * (px n * px n + py n * py n)).
  { apply Qmult_le_0_compat; [now apply Qmult_le_0_compat|nra]. }
  repeat constructor; unfold offset, dot, vsub, px, py in *; simpl;
    nra.
Qed.

Section Quad.

Variables (p0 u v : point) (extent : Q).
Hypothesis Hextent : 0 < extent.
Hypothesis Hu : 0 < dot u u.

Lemma quad_not_closed :
  Qeq_point (px p0 + - py u * extent, py p0 + px u * extent)
            (px p0 + - py u * extent - px u * extent,
             py p0 + px u * extent - py u * extent) = false.
Proof.
  destruct u as [ux uy]. destruct p0 as [x0 y0].
  unfold Qeq_point, px, py, dot in *. simpl in *.
  apply andb_false_iff.
  destruct (Qeq_bool (x0 + - uy * extent) (x0 + - uy * extent - ux * extent))
    eqn:E1; [|now left].
  destruct (Qeq_bool (y0 + ux * extent) (y0 + ux * extent - uy * extent))
    eqn:E2; [|now right].
  exfalso. apply Qeq_bool_iff in E1, E2.
  assert (H1 : ux * extent == 0) by lra.
  assert (H2 : uy * extent == 0) by lra.
  assert (ux == 0).
  { apply Qmult_integral in H1. destruct H1; [assumption|lra]. }
  assert (uy == 0).
  { apply Qmult_integral in H2. destruct H2; [assumption|lra]. }
  nra.
Qed.

Lemma quad_shoelace :
  shoelace (keep_quad p0 u extent
            ++ [(px p0 + - py u * extent, py p0 + px u * extent)])
  == - (4 * extent * extent * dot u u).
Proof.
  destruct u as [ux uy]. destruct p0 as [x0 y0].
  unfold keep_quad, dot, px, py. simpl. ring.
Qed.

Lemma keep_quad_closed :
  close_ring (keep_quad p0 u extent)
  = keep_quad p0 u extent
    ++ [(px p0 + - py u * extent, py p0 + px u * extent)].
Proof.
  pose proof quad_not_closed as Hnc.
  unfold close_ring, keep_quad in *. cbn [last px py fst snd] in *.
  now rewrite Hnc.
Qed.

(** The keep ring runs clockwise. *)
Lemma keep_quad_orientation : orientation (keep_quad p0 u extent) = -1.
Proof.
  unfold orientation. rewrite keep_quad_closed.
  destruct (Qle_bool 0 _) eqn:Eq; [|reflexivity].
  apply Qle_bool_iff in Eq. rewrite quad_shoelace in Eq.
  assert (0 < 4 * extent * extent * dot u u) by
      (repeat apply Qmult_lt_0_compat; try assumption; reflexivity).
  lra.
Qed.

(** A point no further than [extent] behind the cut line and no further
    than [extent] along it either way is inside the keep ring. *)
Lemma inside_keep_quad :
  - (extent * dot u u) <= dot (vsub v p0) u <= 0 ->
  - (extent * dot u u) <= dot (vsub v p0) (tangent u) <= extent * dot u u ->
  inside_ring (keep_quad p0 u extent) v = true.
Proof.
  intros [H1 H2] [H3 H4].
  unfold inside_ring, edges.
  rewrite keep_quad_orientation, keep_quad_closed.
  unfold tangent, dot, vsub, keep_quad in *.
  destruct u as [ux uy]. destruct p0 as [x0 y0]. destruct v as [vx vy].
  cbn [app pairs forallb fst snd]. unfold kept, cross, px, py in *.
  cbn [fst snd] in *.
  rewrite !andb_true_iff, !Qle_bool_iff.
  repeat split; nra.
Qed.

End Quad.

(** ** Clipping *)

Lemma ring_area_nonneg (shell : list point) : 0 <= ring_area shell.
Proof.
  unfold ring_area, Qdiv. apply Qmult_le_0_compat.
  - apply Qabs_nonneg.
  - discriminate.
Qed.

Lemma Qsum_member (l : list Q) (x : Q) :
  (forall y, In y l -> 0 <= y) -> In x l -> x <= Qsum l.
Proof.
  induction l as [|z t IH]; intros Hpos Hin; [contradiction|].
  simpl. assert (Ht : 0 <= Qsum t).
  { clear IH Hin. induction t as [|w t IHt]; simpl; [apply Qle_refl|].
    assert (0 <= w) by (apply Hpos; right; now left).
    assert (0 <= Qsum t).
    { apply IHt. intros y [Hy|Hy]; apply Hpos; [now left|right; now right]. }
    lra. }
  destruct Hin as [->|Hin].
  - lra.
  - assert (x <= Qsum t).
    { apply IH; [|exact Hin]. intros y Hy. apply Hpos. now right. }
    assert (0 <= z) by (apply Hpos; now left). lra.
Qed.

Lemma multipolygon_nonempty (polys : list (list point)) :
  is_empty (GMultiPolygon polys) = false -> polys <> [].
Proof.
  intros H ->. discriminate.
Qed.

(** What [clip_with_flat] does with the kernel's answer [out]. *)
Lemma clip_with_flat_cases (K : Kernel) (poly : Geometry) (p0 n_out : point) :
  let out := intersection K poly (half_plane_polygon K p0 n_out true 10000.0) in
  clip_with_flat K poly p0 n_out
  = if is_empty out then Raise (RuntimeError empty_clip_msg)
    else match out with
         | GMultiPolygon polys => max_by area (map GPolygon polys)
         | _ => Ok out
         end.
Proof.
  cbv zeta. unfold clip_with_flat.
  destruct (is_empty _); [reflexivity|].
  destruct (intersection K poly _); reflexivity.
Qed.

(** The largest member of a non-empty [MultiPolygon]. *)
Lemma largest_component (polys : list (list point)) :
  polys <> [] ->
  exists shell : list point,
    max_by area (map GPolygon polys) = Ok (GPolygon shell) /\
    In shell polys /\
    Forall (fun s => ring_area s <= ring_area shell) polys.
Proof.
  intro Hne.
  destruct (max_by_spec area (map GPolygon polys)) as [m [Hm [Hin Hmax]]].
  { destruct polys; [congruence|discriminate]. }
  apply in_map_iff in Hin. destruct Hin as [shell [<- Hin]].
  exists shell. split; [exact Hm|]. split; [exact Hin|].
  apply Forall_forall. intros s Hs.
  apply (Hmax (GPolygon s)). now apply in_map.
Qed.

(** C5.  An intersection that comes back as a [GeometryCollection]
    (components of mixed dimension, such as two polygons and the stretch
    of an edge that lies on the cut line) is not reduced to its largest
    component: the test is for a [MultiPolygon] only, and [clip_with_flat]
    returns the collection with every member. *)
Theorem clip_returns_collection_whole (K : Kernel) (poly : Geometry)
    (p0 n_out : point) (gs : list Geometry) :
  intersection K poly (half_plane_polygon K p0 n_out true 10000.0)
    = GCollection gs ->
  is_empty (GCollection gs) = false ->
  clip_with_flat K poly p0 n_out = Ok (GCollection gs).
Proof.
  intros Hout Hne. rewrite clip_with_flat_cases. cbv zeta.
  now rewrite Hout, Hne.
Qed.

(** X16.  When the intersection with the keep region is a [MultiPolygon],
    several polygonal components and nothing else, [clip_with_flat]
    returns one of them alone, of the largest area. *)
Theorem clip_keeps_largest_component (K : Kernel) (poly : Geometry)
    (p0 n_out : point) (polys : list (list point)) :
  intersection K poly (half_plane_polygon K p0 n_out true 10000.0)
    = GMultiPolygon polys ->
  is_empty (GMultiPolygon polys) = false ->
  exists shell : list point,
    clip_with_flat K poly p0 n_out = Ok (GPolygon shell) /\
    In shell polys /\
    Forall (fun s => area (GPolygon s) <= area (GPolygon shell)) polys.
Proof.
  intros Hout Hne. rewrite clip_with_flat_cases. cbv zeta.
  rewrite Hout, Hne.
  apply largest_component. now apply multipolygon_nonempty.
Qed.

(** X15.  The geometry returned by [clip_with_flat] is no larger than
    the kernel's intersection of the polygon with the keep ring: keeping
    the largest member of a [MultiPolygon] adds no area, and any other
    answer is returned as it is. *)
Theorem clip_no_larger_than_intersection (K : Kernel) (poly : Geometry)
    (p0 n_out : point) (out : Geometry) :
  clip_with_flat K poly p0 n_out = Ok out ->
  area out
  <= area (intersection K poly (half_plane_polygon K p0 n_out true 10000.0)).
Proof.
  rewrite clip_with_flat_cases. cbv zeta.
  destruct (is_empty _) eqn:Ee; [discriminate|].
  destruct (intersection K poly _) as [p|cs|shell|polys|gs] eqn:Eo;
    try (intro H; inversion H; subst out; apply Qle_refl).
  intro H.
  destruct (largest_component polys (multipolygon_nonempty _ Ee))
    as [shell [Hm [Hin _]]].
  rewrite Hm in H. inversion H; subst out. clear H. simpl.
  apply Qsum_member.
  - intros y Hy. apply in_map_iff in Hy. destruct Hy as [s [<- _]].
    apply ring_area_nonneg.
  - now apply in_map.
Qed.

(** C7, amended.  A polygon whose vertices all lie on the keep side of the
    cut line, no deeper than 10000 behind it and no further than 10000
    from the anchor along it, comes back from [clip_with_flat] as a
    polygon of the same area, the kernel returning whole what the clip
    ring contains. *)
Theorem clip_identity_within_extent (K : Kernel) (shell : list point)
    (p0 n_out : point) :
  let u := normalize K n_out in
  0 < dot u u ->
  Forall (fun v =>
            - (10000.0 * dot u u) <= offset p0 u v <= 0 /\
            - (10000.0 * dot u u) <= offset p0 (tangent u) v
              <= 10000.0 * dot u u) shell ->
  returns_contained K shell (keep_quad p0 u 10000.0) ->
  exists out : list point,
    clip_with_flat K (GPolygon shell) p0 n_out = Ok (GPolygon out) /\
    area (GPolygon out) == area (GPolygon shell).
Proof.
  cbv zeta. intros Hu Hin Hk.
  destruct Hk as [out [Hout [Hne Harea]]].
  { eapply Forall_impl; [|exact Hin]. intros v [H1 H2].
    apply inside_keep_quad; try assumption. reflexivity. }
  exists out. split; [|exact Harea].
  rewrite clip_with_flat_cases. cbv zeta.
  rewrite half_plane_polygon_quad, Hout.
  destruct out as [|q out]; [congruence|]. reflexivity.
Qed.

(** C1, amended.  [clip_with_flat] raises, and raises the empty-geometry
    error, exactly when the kernel's intersection of the polygon with the
    keep ring of extent 10000 is empty.  Otherwise it returns that
    intersection, or its largest member when it is a [MultiPolygon].  The
    keep ring lies on the keep side of the cut line, so a polygon wholly
    on the removed side is refused, the kernel finding nothing in common
    between operands that a line separates. *)
Theorem clip_fails_iff_empty (K : Kernel) (poly : Geometry)
    (p0 n_out : point) :
  let hp := half_plane_polygon K p0 n_out true 10000.0 in
  let out := intersection K poly hp in
  ((exists e : exn, clip_with_flat K poly p0 n_out = Raise e)
   <-> is_empty out = true) /\
  (is_empty out = true ->
   clip_with_flat K poly p0 n_out = Raise (RuntimeError empty_clip_msg)) /\
  (is_empty out = false ->
   exists g : Geometry,
     clip_with_flat K poly p0 n_out = Ok g /\
     (geom_type out <> "MultiPolygon"%string -> g = out) /\
     (geom_type out = "MultiPolygon"%string ->
      In g (geoms out) /\ Forall (fun h => area h <= area g) (geoms out))) /\
  Forall (fun v => offset p0 n_out v <= 0) (coords hp) /\
  (separates_soundly K poly hp ->
   Forall (fun v => 0 < offset p0 n_out v) (coords poly) ->
   clip_with_flat K poly p0 n_out = Raise (RuntimeError empty_clip_msg)).
Proof.
  cbv zeta.
  assert (Hempty : is_empty (intersection K poly
                     (half_plane_polygon K p0 n_out true 10000.0)) = true ->
                   clip_with_flat K poly p0 n_out
                   = Raise (RuntimeError empty_clip_msg)).
  { intro H. rewrite clip_with_flat_cases. cbv zeta. now rewrite H. }
  assert (Hfull : is_empty (intersection K poly
                     (half_plane_polygon K p0 n_out true 10000.0)) = false ->
     exists g : Geometry,
       clip_with_flat K poly p0 n_out = Ok g /\
       (geom_type (intersection K poly
                     (half_plane_polygon K p0 n_out true 10000.0))
        <> "MultiPolygon"%string ->
        g = intersection K poly
              (half_plane_polygon K p0 n_out true 10000.0)) /\
       (geom_type (intersection K poly
                     (half_plane_polygon K p0 n_out true 10000.0))
        = "MultiPolygon"%string ->
        In g (geoms (intersection K poly
                       (half_plane_polygon K p0 n_out true 10000.0))) /\
        Forall (fun h => area h <= area g)
               (geoms (intersection K poly
                         (half_plane_polygon K p0 n_out true 10000.0))))).
  { intro H. rewrite clip_with_flat_cases. cbv zeta. rewrite H.
    destruct (intersection K poly _) as [p|cs|shell|polys|gs] eqn:Eo;
      try (eexists; split; [reflexivity|]; split;
           [reflexivity | simpl; discriminate]).
    destruct (largest_component polys (multipolygon_nonempty _ H))
      as [shell [Hm [Hin Hall]]].
    exists (GPolygon shell). split; [exact Hm|]. split.
    - simpl. congruence.
    - intros _. simpl. split; [now apply in_map|].
      apply Forall_forall. intros h Hh.
      apply in_map_iff in Hh. destruct Hh as [s [<- Hs]].
      rewrite Forall_forall in Hall. simpl. now apply Hall. }
  split; [|split; [exact Hempty|split; [exact Hfull|split]]].
  - split.
    + intros [e He].
      destruct (is_empty _) eqn:Ee; [reflexivity|].
      destruct (Hfull eq_refl) as [g [Hg _]]. congruence.
    + intro H. eexists. now apply Hempty.
  - apply quad_on_keep_side. discriminate.
  - intros Hsep Hremove. apply Hempty. apply (Hsep p0 n_out).
    + exact Hremove.
    + apply quad_on_keep_side. discriminate.
Qed.

(** ** The pipeline on the example outlines *)

(** The neck flat of the end-to-end scenario: 62 off the high end of the
    400 x 200 rectangle. *)
Example neck_flat_of_rectangle :
  clip_with_flat Ref.kernel rect_400_200 (338, 100) (1, 0)
  = Ok (GPolygon [(0, 0); (338, 0); (338, 200); (0, 200)]).
Proof. vm_compute. reflexivity. Qed.

(** Three pins of diameter 6 fit the rectangle; none of diameter 400. *)
Example pins_of_rectangle :
  default_pins Ref.kernel rect_400_200 true None 6
  = [(100.00, 100.0, 3.0); (200.00, 100.0, 3.0); (300.00, 100.0, 3.0)]
  /\ default_pins Ref.kernel rect_400_200 true None 400 = [].
Proof. split; vm_compute; reflexivity. Qed.

(** The rectangle splits along its length axis into two halves. *)
Example halves_of_rectangle :
  split_halves Ref.kernel rect_400_200 true
  = Ok (GPolygon [(0, 100); (400, 100); (400, 200); (0, 200)],
        GPolygon [(0, 100); (0, 0); (400, 0); (400, 100)]).
Proof. vm_compute. reflexivity. Qed.

(** C5 on the tabbed outline, shapely's answer given: the two prongs and
    the end of the tab come back together. *)
Lemma clip_returns_collection_whole_witness :
  clip_with_flat (Ref.answering (GCollection prongs_and_tab_end))
                 tabbed_c_shape (5, 3) (-1, 0)
  = Ok (GCollection prongs_and_tab_end).
Proof.
  apply (clip_returns_collection_whole
           (Ref.answering (GCollection prongs_and_tab_end))
           tabbed_c_shape (5, 3) (-1, 0) prongs_and_tab_end);
    reflexivity.
Defined.

(** The three members lie on the keep side of the cut and have 25 in
    area together, where the largest of them, the upper prong, has 15. *)
Example clip_of_tabbed_c_shape :
  clip_with_flat (Ref.answering (GCollection prongs_and_tab_end))
                 tabbed_c_shape (5, 3) (-1, 0)
  = Ok (GCollection prongs_and_tab_end) /\
  length (geoms (GCollection prongs_and_tab_end)) = 3%nat /\
  area (GCollection prongs_and_tab_end) == 25 /\
  area (GPolygon upper_prong) == 15 /\
  Forall (fun v => offset (5, 3) (-1, 0) v <= 0)
         (coords (GCollection prongs_and_tab_end)) /\
  area tabbed_c_shape == 57.
Proof.
  split; [reflexivity|]. split; [reflexivity|].
  split; [vm_compute; reflexivity|]. split; [vm_compute; reflexivity|].
  split; [|vm_compute; reflexivity].
  repeat constructor; apply Qle_bool_iff; vm_compute; reflexivity.
Qed.

(** X16 on the C-shaped outline: of the two prongs left by the cut, the
    upper and larger one is returned. *)
Lemma clip_keeps_largest_component_witness :
  exists shell : list point,
    clip_with_flat (Ref.answering (GMultiPolygon [lower_prong; upper_prong]))
                   c_shape (5, 3) (-1, 0) = Ok (GPolygon shell) /\
    In shell [lower_prong; upper_prong] /\
    Forall (fun s => area (GPolygon s) <= area (GPolygon shell))
           [lower_prong; upper_prong].
Proof.
  apply (clip_keeps_largest_component
           (Ref.answering (GMultiPolygon [lower_prong; upper_prong]))
           c_shape (5, 3) (-1, 0) [lower_prong; upper_prong]);
    reflexivity.
Defined.

Example clip_of_c_shape :
  clip_with_flat (Ref.answering (GMultiPolygon [lower_prong; upper_prong]))
                 c_shape (5, 3) (-1, 0) = Ok (GPolygon upper_prong).
Proof. vm_compute. reflexivity. Qed.

(** X15 on the C-shaped outline: the prong returned against the two
    prongs of the intersection. *)
Lemma clip_no_larger_than_intersection_witness :
  area (GPolygon upper_prong)
  <= area (intersection
             (Ref.answering (GMultiPolygon [lower_prong; upper_prong]))
             c_shape
             (half_plane_polygon
                (Ref.answering (GMultiPolygon [lower_prong; upper_prong]))
                (5, 3) (-1, 0) true 10000.0)).
Proof.
  apply (clip_no_larger_than_intersection
           (Ref.answering (GMultiPolygon [lower_prong; upper_prong]))
           c_shape (5, 3) (-1, 0) (GPolygon upper_prong)).
  vm_compute. reflexivity.
Defined.

(** C7, amended, on the rectangle and a cut line 100 beyond its high
    end. *)
Lemma clip_identity_within_extent_witness :
  exists out : list point,
    clip_with_flat Ref.kernel rect_400_200 (500, 100) (1, 0)
    = Ok (GPolygon out) /\
    area (GPolygon out) == area rect_400_200.
Proof.
  apply (clip_identity_within_extent Ref.kernel
           [(0, 0); (400, 0); (400, 200); (0, 200)] (500, 100) (1, 0)).
  - by_computation.
  - repeat constructor; by_computation.
  - intros _. exists [(0, 0); (400, 0); (400, 200); (0, 200)].
    split; [vm_compute; reflexivity|].
    split; [discriminate | vm_compute; reflexivity].
Defined.

(** C7 as stated fails.  [far_rect] lies wholly on the keep side of the
    cut line [x = 0], the anchor outside its bounding box; the keep ring
    ends at [x = -10000], across the rectangle, and half of its area is
    lost. *)
Lemma clip_beyond_extent_loses_area :
  Forall (fun v => offset (0, 0) (1, 0) v < 0) (coords far_rect) /\
  bounds far_rect = (-10001, 0, -9999, 1) /\
  clip_with_flat Ref.kernel far_rect (0, 0) (1, 0)
  = Ok (GPolygon [(-10000, 0); (-9999, 0); (-9999, 1); (-10000, 1)]) /\
  area far_rect == 2 /\
  area (GPolygon [(-10000, 0); (-9999, 0); (-9999, 1); (-10000, 1)]) == 1.
Proof.
  split; [repeat constructor; by_computation|].
  split; [vm_compute; reflexivity|].
  split; [vm_compute; reflexivity|].
  split; vm_compute; reflexivity.
Qed.

(** C1 as stated fails.  [distant_rect] lies wholly in the keep
    half-plane [x <= 0], so its intersection with the keep region is the
    rectangle itself, of area 2; it lies beyond the keep ring and
    [clip_with_flat] raises the empty-geometry error.  And the unit
    square, which shares its left edge with the keep region, is answered
    with that edge, a [LineString], not with a polygon. *)
Lemma clip_refuses_distant_polygon :
  (Forall (fun v => offset (0, 0) (1, 0) v < 0) (coords distant_rect) /\
   area distant_rect == 2 /\
   clip_with_flat Ref.kernel distant_rect (0, 0) (1, 0)
   = Raise (RuntimeError empty_clip_msg)) /\
  clip_with_flat Ref.kernel unit_square (0, 0) (1, 0)
  = Ok (GLineString [(0, 0); (0, 1)]).
Proof.
  split; [|vm_compute; reflexivity].
  split; [repeat constructor; by_computation|].
  split; vm_compute; reflexivity.
Qed.

(** C10 on the centred rectangle. *)
Lemma corners_from_top_400_witness :
  drawn_from_top_400 Ref.kernel rect_centred
    [(2508 # 25, -100); (504 # 5, -100)].
Proof.
  apply (corners_from_top_400 Ref.kernel rect_centred true
           [(2508 # 25, -100); (504 # 5, -100)] (200.0, 0.0)).
  vm_compute. reflexivity.
Defined.

(** The 400 x 200 rectangle with its lower left corner at the origin has
    no sample below the axis, and two corners come back instead of four. *)
Lemma pick_four_corners_one_sided_witness :
  pick_four_corners Ref.kernel rect_400_200 true
  = Ok ([(2508 # 25, 0); (504 # 5, 0)], (200.0, 100.0)) /\
  (length [(2508 # 25, 0); (504 # 5, 0)] <= 2)%nat.
Proof.
  split; [vm_compute; reflexivity|].
  apply (pick_four_corners_one_sided Ref.kernel rect_400_200 true
           rect_samples [(2508 # 25, 0); (504 # 5, 0)] (200.0, 100.0)).
  - vm_compute. reflexivity.
  - apply Forall_forall. intros p Hp. apply Qle_bool_iff.
    revert p Hp. apply forallb_forall. vm_compute. reflexivity.
  - vm_compute. reflexivity.
Defined.

(** * Further properties *)

(** ** Bounding boxes *)

Lemma fold_Qmin_le (t : list Q) (x : Q) : fold_left Qmin t x <= x.
Proof.
  revert x. induction t as [|a t IH]; intro x; simpl; [apply Qle_refl|].
  eapply Qle_trans; [apply IH|]. apply Q.le_min_l.
Qed.

Lemma fold_Qmax_ge (t : list Q) (x : Q) : x <= fold_left Qmax t x.
Proof.
  revert x. induction t as [|a t IH]; intro x; simpl; [apply Qle_refl|].
  eapply Qle_trans; [|apply IH]. apply Q.le_max_l.
Qed.

Lemma Qmin_list_le_max (d : Q) (l : list Q) : Qmin_list d l <= Qmax_list d l.
Proof.
  destruct l as [|x t]; simpl; [apply Qle_refl|].
  eapply Qle_trans; [apply fold_Qmin_le|apply fold_Qmax_ge].
Qed.

Lemma bbox_score_nonneg (pts : list point) : 0 <= bbox_score pts.
Proof.
  unfold bbox_score. apply Qmult_le_0_compat.
  - pose proof (Qmin_list_le_max 0 (map px pts)). lra.
  - pose proof (Qmin_list_le_max 0 (map py pts)). lra.
Qed.

Lemma Qeq_point_refl (p : point) : Qeq_point p p = true.
Proof.
  unfold Qeq_point. apply andb_true_iff. split; apply Qeq_bool_iff; reflexivity.
Qed.

(** ** Reading the outline *)

Lemma closed_points_closed (e : Entity) (pts : list point) :
  closed_points e = Some pts ->
  (3 <= length pts)%nat /\
  Qeq_point (hd (0, 0) pts) (last pts (0, 0)) = true.
Proof.
  destruct e as [pts0 closed layer| |]; simpl; try discriminate.
  destruct (length pts0 <? 3)%nat eqn:El; [discriminate|].
  apply Nat.ltb_ge in El.
  destruct (Qeq_point (hd (0, 0) pts0) (last pts0 (0, 0))) eqn:Ec; simpl.
  - intro H. inversion H; subst. split; [exact El|exact Ec].
  - destruct closed; simpl; [|discriminate].
    intro H. inversion H; subst. split.
    + rewrite length_app. simpl. lia.
    + rewrite last_last. destruct pts0 as [|p t]; [simpl in El; lia|].
      simpl. apply Qeq_point_refl.
Qed.

Lemma read_step_keeps (st : option (list point) * Q) (e : Entity) :
  fst st <> None -> fst (read_step st e) <> None.
Proof.
  intro H. unfold read_step.
  destruct (closed_points e); [|exact H].
  destruct (Qltb (snd st) (bbox_score l)); [discriminate|exact H].
Qed.

Lemma read_loop_state (msp : list Entity) :
  read_state msp (fold_left read_step msp (None, -1.0)).
Proof.
  induction msp as [|e l IH] using rev_ind.
  - simpl. split; [reflexivity|constructor].
  - rewrite fold_left_app. simpl.
    destruct (fold_left read_step l (None, -1.0)) as [b s].
    unfold read_state in *. unfold read_step. simpl in *.
    destruct (closed_points e) as [pts|] eqn:Ee.
    + simpl. destruct (Qltb s (bbox_score pts)) eqn:Es; simpl.
      * apply Qltb_true in Es. split; [reflexivity|].
        exists l, e, []. split; [reflexivity|]. split; [exact Ee|].
        split; [|constructor].
        destruct b as [best|].
        -- destruct IH as [-> [before [e0 [after [-> [H0 [Hb Ha]]]]]]].
           apply Forall_app. split.
           ++ eapply Forall_impl; [|exact Hb]. intros e' H pts' Hp.
              specialize (H pts' Hp). lra.
           ++ constructor.
              ** intros pts' Hp. rewrite H0 in Hp. inversion Hp; subst. exact Es.
              ** eapply Forall_impl; [|exact Ha]. intros e' H pts' Hp.
                 specialize (H pts' Hp). lra.
        -- destruct IH as [_ Hnone].
           eapply Forall_impl; [|exact Hnone]. intros e' H pts' Hp. congruence.
      * apply Qltb_false in Es. destruct b as [best|].
        -- destruct IH as [-> [before [e0 [after [-> [H0 [Hb Ha]]]]]]].
           split; [reflexivity|].
           exists before, e0, (after ++ [e]). split.
           { now rewrite <- app_assoc. }
           split; [exact H0|]. split; [exact Hb|].
           apply Forall_app. split; [exact Ha|]. constructor; [|constructor].
           intros pts' Hp. rewrite Ee in Hp. inversion Hp; subst. exact Es.
        -- destruct IH as [Hs _]. pose proof (bbox_score_nonneg pts). lra.
    + destruct b as [best|].
      * destruct IH as [-> [before [e0 [after [-> [H0 [Hb Ha]]]]]]].
        split; [reflexivity|].
        exists before, e0, (after ++ [e]). split.
        { now rewrite <- app_assoc. }
        split; [exact H0|]. split; [exact Hb|].
        apply Forall_app. split; [exact Ha|]. constructor; [|constructor].
        intros pts' Hp. congruence.
      * destruct IH as [Hs Hnone]. split; [exact Hs|].
        apply Forall_app. split; [exact Hnone|]. now constructor.
Qed.

(** X1.  [read_first_closed_lwpolyline_as_polygon] finds no outline, and
    raises its "No closed LWPOLYLINE found" error, exactly when no entity
    of the modelspace qualifies: each is something else than a
    light-weight polyline, or has fewer than three points, or is open
    (its ends differ and its closed flag is not set).  An empty
    modelspace is one such. *)
Theorem read_without_outline (K : Kernel) (R : Runtime) (msp : list Entity) :
  (best_outline msp = None <->
   Forall (fun e => closed_points e = None) msp) /\
  (Forall (fun e => closed_points e = None) msp ->
   read_first_closed_lwpolyline_as_polygon K R msp
   = Raise (RuntimeError no_outline_msg)) /\
  (forall e : Entity,
      closed_points e = None <->
      match e with
      | LwPolyline pts closed _ =>
          (length pts < 3)%nat \/
          (Qeq_point (hd (0, 0) pts) (last pts (0, 0)) = false /\
           closed = false)
      | _ => True
      end).
Proof.
  assert (Hiff : best_outline msp = None <->
                 Forall (fun e => closed_points e = None) msp).
  { pose proof (read_loop_state msp) as H. unfold read_state, best_outline in *.
    destruct (fst (fold_left read_step msp (None, -1.0))) as [best|].
    - split; [discriminate|]. intro Hall.
      destruct H as [_ [before [e [after [-> [He _]]]]]].
      apply Forall_app in Hall. destruct Hall as [_ Hall].
      inversion Hall; subst. congruence.
    - split; [intros _; apply H|reflexivity]. }
  split; [exact Hiff|]. split.
  - intro H. apply Hiff in H.
    unfold read_first_closed_lwpolyline_as_polygon. now rewrite H.
  - intros [pts closed layer| |]; simpl; try tauto.
    destruct (length pts <? 3)%nat eqn:El.
    + apply Nat.ltb_lt in El. tauto.
    + apply Nat.ltb_ge in El.
      destruct (Qeq_point (hd (0, 0) pts) (last pts (0, 0))); simpl.
      * split; [discriminate|]. intros [H|[H _]]; [lia|discriminate].
      * destruct closed; simpl.
        -- split; [discriminate|]. intros [H|[_ H]]; [lia|discriminate].
        -- split; [intros _; now right|reflexivity].
Qed.

(** X2.  The outline chosen by the loop comes from an entity that
    qualifies; every qualifying entity before it has a strictly smaller
    bounding-box area and none after it has a larger one, so the largest
    wins and the earliest among equals.  The chosen ring is closed, its
    first point repeated at the end, and has at least three points. *)
Theorem read_picks_largest (msp : list Entity) (best : list point) :
  best_outline msp = Some best ->
  exists (before : list Entity) (e : Entity) (after : list Entity),
    msp = before ++ e :: after /\
    closed_points e = Some best /\
    Forall (fun e' => forall pts, closed_points e' = Some pts ->
                                  bbox_score pts < bbox_score best) before /\
    Forall (fun e' => forall pts, closed_points e' = Some pts ->
                                  bbox_score pts <= bbox_score best) after /\
    (3 <= length best)%nat /\
    Qeq_point (hd (0, 0) best) (last best (0, 0)) = true.
Proof.
  intro H. pose proof (read_loop_state msp) as Hs.
  unfold read_state, best_outline in *. rewrite H in Hs.
  destruct Hs as [_ [before [e [after [Hm [He [Hb Ha]]]]]]].
  exists before, e, after. repeat (split; [assumption|]).
  now apply closed_points_closed in He.
Qed.

Lemma last_cons_indep {A : Type} (x : A) (t : list A) (d d' : A) :
  last (x :: t) d = last (x :: t) d'.
Proof.
  revert x. induction t as [|y t IH]; intro x; [reflexivity|].
  change (last (y :: t) d = last (y :: t) d'). apply IH.
Qed.

Lemma close_ring_cons (p : point) (t : list point) :
  close_ring (p :: t)
  = if Qeq_point p (last (p :: t) p) then p :: t else (p :: t) ++ [p].
Proof. reflexivity. Qed.

Lemma close_ring_idem (shell : list point) :
  close_ring (close_ring shell) = close_ring shell.
Proof.
  destruct shell as [|p t]; [reflexivity|].
  rewrite (close_ring_cons p t).
  destruct (Qeq_point p (last (p :: t) p)) eqn:E.
  - rewrite close_ring_cons, E. reflexivity.
  - change ((p :: t) ++ [p]) with (p :: (t ++ [p])).
    rewrite close_ring_cons.
    change (p :: t ++ [p]) with ((p :: t) ++ [p]).
    rewrite last_last, Qeq_point_refl. reflexivity.
Qed.

Lemma close_ring_closed (shell : list point) :
  Qeq_point (hd (0, 0) (close_ring shell)) (last (close_ring shell) (0, 0))
  = true.
Proof.
  destruct shell as [|p t]; [reflexivity|].
  rewrite close_ring_cons.
  destruct (Qeq_point p (last (p :: t) p)) eqn:E.
  - rewrite (last_cons_indep p t (0, 0) p). exact E.
  - rewrite last_last. simpl. apply Qeq_point_refl.
Qed.

Lemma read_fold_skips (l : list Entity) (st : option (list point) * Q) :
  Forall (fun e => closed_points e = None) l ->
  fold_left read_step l st = st.
Proof.
  revert st. induction l as [|e l IH]; intros st H; [reflexivity|].
  inversion H as [|? ? He Hl]; subst. simpl.
  unfold read_step at 2. rewrite He. now apply IH.
Qed.

(** X3.  Writing a polygon and reading the written document back gives
    the polygon again, as its closed ring: the circles of the pin holes
    do not disturb the reading.  The ring is to have three coordinates or
    more, to be accepted by shapely's constructor and valid, and to
    enclose some area. *)
Theorem write_then_read (K : Kernel) (R : Runtime) (out_path : string)
    (shell : list point) (holes : list (Q * Q * Q))
    (layer_outline layer_holes : string) (fs : Files) :
  (3 <= length (close_ring shell))%nat ->
  make_polygon R (close_ring shell) = Ok (GPolygon (close_ring shell)) ->
  is_valid R (GPolygon (close_ring shell)) = true ->
  0 < area (GPolygon shell) ->
  exists msp : list Entity,
    write_polygon_and_holes_to_dxf out_path (GPolygon shell) holes
      layer_outline layer_holes fs
    = (fs ++ [(out_path, msp)], Ok tt) /\
    read_first_closed_lwpolyline_as_polygon K R msp
    = Ok (GPolygon (close_ring shell)).
Proof.
  intros Hlen Hmk Hval Harea.
  eexists. split; [reflexivity|].
  unfold read_first_closed_lwpolyline_as_polygon, best_outline.
  cbn [fold_left].
  assert (Hcp : closed_points (LwPolyline (close_ring shell) true layer_outline)
                = Some (close_ring shell)).
  { simpl. apply Nat.ltb_ge in Hlen. rewrite Hlen.
    now rewrite close_ring_closed. }
  unfold read_step at 2. rewrite Hcp. cbn [snd].
  assert (Hlt : Qltb (-1.0) (bbox_score (close_ring shell)) = true).
  { apply Qltb_true. eapply Qlt_le_trans; [|apply bbox_score_nonneg].
    reflexivity. }
  rewrite Hlt. rewrite read_fold_skips.
  2:{ apply Forall_forall. intros e He. apply in_map_iff in He.
      destruct He as [h [<- _]]. reflexivity. }
  cbn [fst]. rewrite Hmk. unfold bind. rewrite Hval. cbn [negb orb].
  assert (Ha : Qle_bool (area (GPolygon (close_ring shell))) 0 = false).
  { destruct (Qle_bool _ 0) eqn:E; [|reflexivity].
    apply Qle_bool_iff in E. simpl in E, Harea. unfold ring_area in *.
    rewrite close_ring_idem in E. lra. }
  rewrite Ha.
  destruct (close_ring shell) as [|p t] eqn:Er; [simpl in Hlen; lia|].
  reflexivity.
Qed.

(** ** Unit normals *)

(** X4.  [normalize] returns the zero vector for a vector shorter than
    1e-12 and the vector divided by its length otherwise, of unit length
    when [hypot] is exact; either way a non-negative multiple of the
    vector, never one of the opposite direction. *)
Theorem normalize_direction (K : Kernel) (v : point) :
  let u := normalize K v in
  let h := hypot K (px v) (py v) in
  (h < 1e-12 -> u = (0.0, 0.0)) /\
  (1e-12 <= h ->
   px u == px v / h /\ py u == py v / h /\
   (h * h == px v * px v + py v * py v -> dot u u == 1)) /\
  (exists l : Q, 0 <= l /\ px u == l * px v /\ py u == l * py v).
Proof.
  cbv zeta. split; [|split].
  - intro H. unfold normalize. apply Qltb_true in H. now rewrite H.
  - intro H. unfold normalize.
    assert (Hf : Qltb (hypot K (px v) (py v)) 1e-12 = false)
      by now apply Qltb_false.
    rewrite Hf. unfold dot. cbn [px py fst snd].
    assert (Hpos : 0 < hypot K (px v) (py v)).
    { eapply Qlt_le_trans; [|exact H]. reflexivity. }
    split; [reflexivity|]. split; [reflexivity|].
    intro Hh.
    assert (Hne : ~ hypot K (fst v) (snd v) == 0).
    { unfold px, py in Hpos. lra. }
    unfold px, py in *.
    setoid_replace (fst v / hypot K (fst v) (snd v)
                    * (fst v / hypot K (fst v) (snd v))
                    + snd v / hypot K (fst v) (snd v)
                      * (snd v / hypot K (fst v) (snd v)))
      with ((fst v * fst v + snd v * snd v)
            / (hypot K (fst v) (snd v) * hypot K (fst v) (snd v)))
      by (field; exact Hne).
    rewrite <- Hh. field. exact Hne.
  - apply normalize_scales.
Qed.

Lemma half_plane_polygon_remove (K : Kernel) (p0 n : point) (extent : Q) :
  half_plane_polygon K p0 n false extent
  = GPolygon (remove_quad p0 (normalize K n) extent).
Proof.
  unfold half_plane_polygon, remove_quad.
  destruct (normalize K n) as [ux uy]. reflexivity.
Qed.

(** X5.  With [keep_inside = False] the ring of [half_plane_polygon] lies
    on the removed side of the cut line.  It shares its first two
    vertices with the keep ring, and they are on the line.  The keep ring
    covers [2 * extent^2] times the squared length of the normalized
    normal: 2 * extent^2 for a unit normal. *)
Theorem half_plane_polygon_sides (K : Kernel) (p0 n : point) (extent : Q) :
  0 <= extent ->
  let u := normalize K n in
  half_plane_polygon K p0 n true extent = GPolygon (keep_quad p0 u extent) /\
  half_plane_polygon K p0 n false extent = GPolygon (remove_quad p0 u extent) /\
  Forall (fun v => 0 <= offset p0 n v) (remove_quad p0 u extent) /\
  Forall (fun v => offset p0 n v == 0) (firstn 2 (remove_quad p0 u extent)) /\
  firstn 2 (keep_quad p0 u extent) = firstn 2 (remove_quad p0 u extent) /\
  (0 < extent -> 0 < dot u u ->
   area (half_plane_polygon K p0 n true extent)
   == 2 * extent * extent * dot u u).
Proof.
  intro HE. cbv zeta.
  split; [apply half_plane_polygon_quad|].
  split; [apply half_plane_polygon_remove|].
  destruct (normalize_scales K n) as [l [Hl [Hx Hy]]].
  assert (Hsq : 0 <= l * extent * (px n * px n + py n * py n)).
  { apply Qmult_le_0_compat; [now apply Qmult_le_0_compat|nra]. }
  split; [|split; [|split]].
  - unfold remove_quad. destruct (normalize K n) as [ux uy].
    simpl in Hx, Hy.
    repeat constructor; unfold offset, dot, vsub, px, py in *; simpl; nra.
  - unfold remove_quad. destruct (normalize K n) as [ux uy].
    simpl in Hx, Hy.
    repeat constructor; unfold offset, dot, vsub, px, py in *; simpl; nra.
  - reflexivity.
  - intros HE' Hu. rewrite half_plane_polygon_quad. simpl. unfold ring_area.
    rewrite (keep_quad_closed p0 (normalize K n) extent HE' Hu).
    rewrite (quad_shoelace p0 (normalize K n) extent Hu).
    rewrite Qabs_opp, Qabs_pos.
    + field.
    + assert (0 < 4 * extent * extent * dot (normalize K n) (normalize K n)).
      { repeat apply Qmult_lt_0_compat; try assumption; reflexivity. }
      lra.
Qed.

(** ** Sampling *)

Lemma sample_exterior_ring (K : Kernel) (shell : list point) (n : nat) :
  close_ring shell <> [] ->
  sample_exterior K (GPolygon shell) n
  = Ok (map (fun t => interpolate K (close_ring shell) t)
            (linspace 0 (line_length K (close_ring shell)) n)).
Proof.
  intro Hne. unfold sample_exterior, bind, exterior_coords.
  destruct (close_ring shell); [congruence|reflexivity].
Qed.

Lemma sample_exterior_empty (K : Kernel) (n : nat) :
  sample_exterior K (GPolygon []) (S n)
  = Raise (IndexError "index out of range").
Proof. reflexivity. Qed.

(** X6.  On a polygon whose ring has its four coordinates or more
    [sample_exterior] returns exactly [n] points; sample [i] is the
    kernel's interpolation at the arc length [i * L / n], which stays
    below the length [L] of the ring: the closing point is not sampled
    twice.  On the empty polygon it raises an [IndexError] as soon as a
    point is asked for, and returns no point for [n = 0].  On a geometry
    that is no polygon it raises an [AttributeError]. *)
Theorem sample_exterior_samples (K : Kernel) (poly : Geometry) (n : nat) :
  match poly with
  | GPolygon shell =>
      (shell = [] ->
       (n = 0%nat -> sample_exterior K poly n = Ok []) /\
       ((0 < n)%nat ->
        exists msg : string,
          sample_exterior K poly n = Raise (IndexError msg))) /\
      ((4 <= length (close_ring shell))%nat ->
       exists pts : list point,
         sample_exterior K poly n = Ok pts /\ length pts = n /\
         forall i : nat, (i < n)%nat ->
           exists t : Q,
             nth i pts (0, 0) = interpolate K (close_ring shell) t /\
             t * inject_Z (Z.of_nat n)
             == inject_Z (Z.of_nat i) * line_length K (close_ring shell) /\
             (0 < line_length K (close_ring shell) ->
              0 <= t < line_length K (close_ring shell)))
  | _ => exists msg : string,
        sample_exterior K poly n = Raise (AttributeError msg)
  end.
Proof.
  destruct poly as [p|cs|shell|polys|gs];
    try (eexists; reflexivity).
  split.
  { intros ->. split.
    - intros ->. reflexivity.
    - intro Hn. destruct n as [|n]; [lia|].
      eexists. apply sample_exterior_empty. }
  intro H4. rewrite sample_exterior_ring
    by (intro E; rewrite E in H4; simpl in H4; lia).
  eexists. split; [reflexivity|]. split.
  { unfold linspace. now rewrite !length_map, length_seq. }
  intros i Hi.
  set (L := line_length K (close_ring shell)).
  exists (inject_Z (Z.of_nat i) * ((L - 0) / inject_Z (Z.of_nat n)) + 0).
  assert (Hn : 0 < inject_Z (Z.of_nat n)).
  { change 0 with (inject_Z 0). rewrite <- Zlt_Qlt. lia. }
  assert (Hin : inject_Z (Z.of_nat i) < inject_Z (Z.of_nat n)).
  { rewrite <- Zlt_Qlt. lia. }
  assert (Hi0 : 0 <= inject_Z (Z.of_nat i)).
  { change 0 with (inject_Z 0). rewrite <- Zle_Qle. lia. }
  split; [|split].
  - unfold linspace.
    rewrite (nth_indep _ (0, 0)
               (interpolate K (close_ring shell) 0))
      by (rewrite !length_map, length_seq; exact Hi).
    rewrite (map_nth (fun t => interpolate K (close_ring shell) t)).
    f_equal.
    rewrite (nth_indep _ 0
               (inject_Z (Z.of_nat 0) * ((L - 0) / inject_Z (Z.of_nat n)) + 0))
      by (rewrite length_map, length_seq; exact Hi).
    rewrite (map_nth (fun i => inject_Z (Z.of_nat i)
                               * ((L - 0) / inject_Z (Z.of_nat n)) + 0)).
    now rewrite seq_nth.
  - field. lra.
  - intro HL.
    assert (Heq : (inject_Z (Z.of_nat i) * ((L - 0) / inject_Z (Z.of_nat n)) + 0)
                  * inject_Z (Z.of_nat n)
                  == inject_Z (Z.of_nat i) * L) by (field; lra).
    set (t := inject_Z (Z.of_nat i) * ((L - 0) / inject_Z (Z.of_nat n)) + 0)
      in *.
    split.
    + assert (0 <= t * inject_Z (Z.of_nat n)).
      { rewrite Heq. apply Qmult_le_0_compat; lra. }
      destruct (Qlt_le_dec t 0) as [Hneg|]; [|assumption].
      exfalso. assert (t * inject_Z (Z.of_nat n) < 0) by nra. lra.
    + destruct (Qlt_le_dec t L) as [|Hge]; [assumption|].
      exfalso.
      assert (L * inject_Z (Z.of_nat n) <= t * inject_Z (Z.of_nat n)) by nra.
      assert (inject_Z (Z.of_nat i) * L < inject_Z (Z.of_nat n) * L) by nra.
      lra.
Qed.

Lemma StronglySorted_map_in {A B : Type} (R : A -> A -> Prop)
    (R' : B -> B -> Prop) (f : A -> B) (l : list A) :
  (forall x y, In x l -> In y l -> R x y -> R' (f x) (f y)) ->
  StronglySorted R l -> StronglySorted R' (map f l).
Proof.
  intros Hf Hs. induction Hs as [|x t Hs IH Hall]; simpl; [constructor|].
  constructor.
  - apply IH. intros a b Ha Hb. apply Hf; now right.
  - apply Forall_forall. intros b Hb. apply in_map_iff in Hb.
    destruct Hb as [y [<- Hy]]. rewrite Forall_forall in Hall.
    apply Hf; [now left|now right|now apply Hall].
Qed.

Lemma keyed_value (a : list Q) (x : Q * nat) :
  In x (keyed a) -> fst x = nth (snd x) a 0.
Proof.
  intro H. apply (Permutation_in _ (keyed_perm a)) in H.
  destruct x as [v i]. apply combine_seq_nth in H.
  destruct H as [_ ->]. simpl. now rewrite Nat.sub_0_r.
Qed.

(** X7.  The ranking returned by [curvature_peaks] lists every sample
    index exactly once, in order of non-increasing score; there is one
    score per sample. *)
Theorem curvature_peaks_ranking (K : Kernel) (points : list point) (k : Z) :
  let idx := fst (curvature_peaks K points k) in
  let score := snd (curvature_peaks K points k) in
  Permutation idx (seq 0 (length points)) /\
  length score = length points /\
  StronglySorted (fun i j => nth j score 0 <= nth i score 0) idx.
Proof.
  cbv zeta. unfold curvature_peaks. cbn [fst snd].
  set (score := map (score_at K points) (seq 0 (length points))).
  assert (Hlen : length score = length points).
  { unfold score. now rewrite length_map, length_seq. }
  split; [|split; [exact Hlen|]].
  - rewrite argsort_perm. now rewrite length_map, Hlen.
  - unfold argsort. fold (keyed (map Qopp score)).
    apply (StronglySorted_map_in asc); [|apply keyed_sorted].
    intros x y Hx Hy Hxy. unfold asc in Hxy.
    rewrite (keyed_value _ x Hx), (keyed_value _ y Hy) in Hxy.
    change 0 with (Qopp 0) in Hxy. rewrite !map_nth in Hxy.
    apply Qopp_le_compat in Hxy. now rewrite !Qopp_involutive in Hxy.
Qed.

(** X8.  The score of a sample is 0 when a neighbour lies within 1e-9 of
    it.  Otherwise it is the arc cosine of the cosine between the two
    unit chords clamped to [-1, 1]: [acos] is never called outside its
    domain. *)
Theorem bend_clamped (K : Kernel) (p0 p1 p2 : point) :
  let n1 := norm K (vsub p0 p1) in
  let n2 := norm K (vsub p2 p1) in
  let cosine := dot (px (vsub p0 p1) / n1, py (vsub p0 p1) / n1)
                    (px (vsub p2 p1) / n2, py (vsub p2 p1) / n2) in
  (n1 < 1e-9 \/ n2 < 1e-9 -> bend K p0 p1 p2 = 0) /\
  (1e-9 <= n1 -> 1e-9 <= n2 ->
   exists c : Q,
     bend K p0 p1 p2 = acos K c /\ -1 <= c <= 1 /\
     (-1 <= cosine <= 1 -> c == cosine) /\
     (1 <= cosine -> c == 1) /\ (cosine <= -1 -> c == -1)).
Proof.
  cbv zeta. unfold bend. split.
  - intros [H|H]; apply Qltb_true in H; rewrite H; [reflexivity|].
    now rewrite orb_true_r.
  - intros H1 H2. apply Qltb_false in H1, H2. rewrite H1, H2. cbn [orb].
    eexists. split; [reflexivity|].
    set (x := dot _ _).
    assert (Hm1 : -1.0 == -1) by reflexivity.
    assert (H1' : 1.0 == 1) by reflexivity.
    destruct (Q.max_spec (-1.0) (Qmin 1.0 x)) as [[Ha ->]|[Ha ->]];
      destruct (Q.min_spec 1.0 x) as [[Hb Hc]|[Hb Hc]];
      rewrite ?Hc in *; repeat split; intros; lra.
Qed.

Lemma filter_first {A : Type} (f : A -> bool) (l : list A) :
  (exists x, In x l /\ f x = true) ->
  exists (x : A) (t : list A), filter f l = x :: t /\ first_in l f x.
Proof.
  induction l as [|y l IH]; intros [x [Hin Hf]]; [contradiction|].
  simpl. destruct (f y) eqn:Ey.
  - exists y, (filter f l). split; [reflexivity|].
    exists [], l. repeat split; [exact Ey|constructor].
  - destruct Hin as [->|Hin]; [congruence|].
    destruct IH as [z [t [Hz [before [after [-> [Hfz Hb]]]]]]];
      [now exists x|].
    exists z, t. split; [exact Hz|].
    exists (y :: before), after. repeat split; [exact Hfz|].
    now constructor.
Qed.

Lemma filter_twice {A : Type} (f g : A -> bool) (l : list A) :
  filter g (filter f l) = filter (fun x => f x && g x) l.
Proof.
  induction l as [|x l IH]; [reflexivity|]. simpl.
  destruct (f x); simpl; [destruct (g x)|]; now rewrite IH.
Qed.

Lemma first_in_filter {A : Type} (f g : A -> bool) (l : list A) (x : A) :
  first_in (filter f l) g x -> first_in l (fun y => f y && g y) x.
Proof.
  intros [before [after [Hl [Hg Hb]]]].
  revert before Hl Hb. induction l as [|y l IH]; intros before Hl Hb.
  - destruct before; discriminate.
  - simpl in Hl. destruct (f y) eqn:Ey.
    + destruct before as [|z before].
      * simpl in Hl. inversion Hl; subst.
        exists [], l. repeat split; [now rewrite Ey|constructor].
      * simpl in Hl. inversion Hl; subst. inversion Hb; subst.
        destruct (IH before) as [b' [a' [-> [Hx Hb']]]]; try assumption.
        exists (z :: b'), a'. repeat split; [exact Hx|].
        constructor; [|exact Hb']. rewrite Ey. simpl. assumption.
    + destruct (IH before Hl Hb) as [b' [a' [-> [Hx Hb']]]].
      exists (y :: b'), a'. repeat split; [exact Hx|].
      constructor; [|exact Hb']. now rewrite Ey.
Qed.

Lemma first_in_ext {A : Type} (f g : A -> bool) (l : list A) (x : A) :
  (forall y, f y = g y) -> first_in l f x -> first_in l g x.
Proof.
  intros Hfg [before [after [-> [Hf Hb]]]].
  exists before, after. repeat split; [now rewrite <- Hfg|].
  eapply Forall_impl; [|exact Hb]. intros y Hy. now rewrite <- Hfg.
Qed.

Lemma filter_head {A : Type} (f : A -> bool) (l : list A) (x : A)
    (t : list A) :
  filter f l = x :: t -> first_in l f x.
Proof.
  intro E. destruct (filter_first f l) as [y [t' [E' Hy]]].
  - exists x. apply filter_In. rewrite E. now left.
  - rewrite E in E'. now inversion E'; subst.
Qed.

Lemma filter_nil_Forall {A : Type} (f : A -> bool) (l : list A) :
  filter f l = [] -> Forall (fun x => f x = false) l.
Proof.
  induction l as [|x l IH]; simpl; [constructor|].
  destruct (f x) eqn:E; [discriminate|]. intro H. constructor; auto.
Qed.

Lemma filter_ext_eq {A : Type} (f g : A -> bool) (l : list A) :
  (forall x, f x = g x) -> filter f l = filter g l.
Proof.
  intro H. induction l as [|x l IH]; simpl; [reflexivity|].
  now rewrite H, IH.
Qed.

(** The two picks of one side, [above] telling the candidates of the side
    and [near] those at or past the middle. *)
Lemma pick_two_by_long_choice (longc : nat -> Q) (mid : Q)
    (above : nat -> bool) (cand : list nat) :
  side_choice cand
    (fun near k => above k && Bool.eqb (Qle_bool mid (longc k)) near)
    (pick_two_by_long longc mid (filter above cand)).
Proof.
  unfold pick_two_by_long, side_choice.
  assert (Hside : firstn 2 (filter above cand)
          = firstn 2 (filter (fun k =>
               above k && Bool.eqb (Qle_bool mid (longc k)) true
               || above k && Bool.eqb (Qle_bool mid (longc k)) false) cand)).
  { f_equal. apply filter_ext_eq. intro k.
    destruct (above k), (Qle_bool mid (longc k)); reflexivity. }
  destruct (filter (fun i => Qle_bool mid (longc i)) (filter above cand))
    as [|a0 ta] eqn:Ea.
  { right. split; [|exact Hside]. left.
    rewrite filter_twice in Ea. apply filter_nil_Forall in Ea.
    eapply Forall_impl; [|exact Ea]. intros k Hk. simpl in Hk.
    destruct (above k), (Qle_bool mid (longc k)); simpl in *; congruence. }
  destruct (filter (fun i => Qltb (longc i) mid) (filter above cand))
    as [|b0 tb] eqn:Eb.
  { right. split; [|exact Hside]. right.
    rewrite filter_twice in Eb. apply filter_nil_Forall in Eb.
    eapply Forall_impl; [|exact Eb]. intros k Hk. simpl in Hk.
    unfold Qltb in Hk.
    destruct (above k), (Qle_bool mid (longc k)); simpl in *; congruence. }
  left. exists a0, b0. split; [reflexivity|].
  apply filter_head in Ea, Eb. apply first_in_filter in Ea, Eb.
  split.
  - eapply first_in_ext; [|exact Ea]. intro k. simpl.
    now destruct (above k), (Qle_bool mid (longc k)).
  - eapply first_in_ext; [|exact Eb]. intro k. simpl. unfold Qltb.
    now destruct (above k), (Qle_bool mid (longc k)).
Qed.

Lemma side_choice_ext (cand : list nat) (q q' : bool -> nat -> bool)
    (sel : list nat) :
  (forall near k, q near k = q' near k) ->
  side_choice cand q sel -> side_choice cand q' sel.
Proof.
  intros H [[i [j [E [Hi Hj]]]]|[Hn E]].
  - left. exists i, j. split; [exact E|].
    split; eapply first_in_ext; try eassumption; intro; apply H.
  - right. split.
    + destruct Hn as [Hn|Hn]; [left|right];
        (eapply Forall_impl; [|exact Hn]); intros k Hk; now rewrite <- H.
    + rewrite E. f_equal. apply filter_ext_eq. intro k. now rewrite !H.
Qed.

(** A side with a candidate in each of its quadrants gives the first of
    each. *)
Lemma side_choice_full (cand : list nat) (q : bool -> nat -> bool)
    (sel : list nat) :
  side_choice cand q sel ->
  (forall near : bool, exists i : nat, In i cand /\ q near i = true) ->
  exists i j : nat,
    sel = [i; j] /\ first_in cand (q true) i /\ first_in cand (q false) j.
Proof.
  intros [H|[Hn _]] Hq; [exact H|]. exfalso.
  destruct Hn as [Hn|Hn]; rewrite Forall_forall in Hn.
  - destruct (Hq true) as [i [Hi Ht]]. specialize (Hn i Hi). congruence.
  - destruct (Hq false) as [i [Hi Ht]]. specialize (Hn i Hi). congruence.
Qed.

(** X10.  The corners come upper side first, then lower side.  On each
    side of the length axis [pick_four_corners] takes the first candidate
    at or past the middle of the bounding box and the first one before it,
    in ranking order; when one of the two quadrants holds no candidate it
    takes the first two candidates of that side instead. *)
Theorem four_corners_by_quadrant (K : Kernel) (poly : Geometry)
    (axis_is_x : bool) (pts : list point) :
  let cand := candidates (fst (curvature_peaks K pts 5))
                         (band poly axis_is_x pts) in
  let q := fun (up near : bool) (i : nat) =>
             quadrant axis_is_x (mid_long poly axis_is_x) up near
                      (at_index pts i) in
  sample_exterior K poly 2500 = Ok pts ->
  exists u2 l2 : list nat,
    pick_four_corners K poly axis_is_x
    = Ok (map (at_index pts) (u2 ++ l2), bbox_centre poly) /\
    side_choice cand (q true) u2 /\ side_choice cand (q false) l2.
Proof.
  cbv zeta. intros Es.
  unfold pick_four_corners, bind. rewrite Es.
  unfold corner_indices, mid_long, bbox_centre.
  destruct (bounds poly) as [[[minx miny] maxx] maxy].
  destruct (curvature_peaks K pts 5) as [idx score]. cbn [fst].
  set (cand := candidates idx (band poly axis_is_x pts)).
  set (mid := if axis_is_x then 0.5 * (minx + maxx) else 0.5 * (miny + maxy)).
  assert (Hmid : longcoord axis_is_x (0.5 * (minx + maxx), 0.5 * (miny + maxy))
                 = mid) by (unfold mid; now destruct axis_is_x).
  rewrite Hmid.
  set (fU := fun i => Qle_bool 0 (side axis_is_x (at_index pts i))).
  set (fL := fun i => Qltb (side axis_is_x (at_index pts i)) 0).
  set (longc := fun i => longcoord axis_is_x (at_index pts i)).
  pose proof (pick_two_by_long_choice longc mid fU cand) as HU.
  pose proof (pick_two_by_long_choice longc mid fL cand) as HL.
  apply (side_choice_ext _ _
           (fun near i => quadrant axis_is_x mid true near (at_index pts i)))
    in HU.
  2:{ intros near k. unfold quadrant, fU, longc.
      now destruct (Qle_bool 0 _), (Qle_bool mid _), near. }
  apply (side_choice_ext _ _
           (fun near i => quadrant axis_is_x mid false near (at_index pts i)))
    in HL.
  2:{ intros near k. unfold quadrant, fL, longc, Qltb.
      now destruct (Qle_bool 0 _), (Qle_bool mid _), near. }
  eexists. eexists. split; [reflexivity|].
  split; [exact HU|exact HL].
Qed.

(** X9.  On a polygon whose ring has its four coordinates or more
    [pick_four_corners] succeeds, with at most four corners, each one of
    the 2500 sampled points, and the centre of the bounding box.  On the
    empty polygon it raises the [IndexError] of the sampling.  On a
    geometry that is no polygon, such as a [LineString] or a
    [GeometryCollection] left by a clip, it raises an
    [AttributeError]. *)
Theorem pick_four_corners_total (K : Kernel) (poly : Geometry)
    (axis_is_x : bool) :
  match poly with
  | GPolygon shell =>
      (shell = [] ->
       exists msg : string,
         pick_four_corners K poly axis_is_x = Raise (IndexError msg)) /\
      ((4 <= length (close_ring shell))%nat ->
       exists corners pts : list point,
         pick_four_corners K poly axis_is_x
         = Ok (corners, bbox_centre poly) /\
         sample_exterior K poly 2500 = Ok pts /\
         (length corners <= 4)%nat /\ incl corners pts)
  | _ => exists msg : string,
        pick_four_corners K poly axis_is_x = Raise (AttributeError msg)
  end.
Proof.
  destruct poly as [p|cs|shell|polys|gs]; try (eexists; reflexivity).
  split.
  { intros ->. eexists. unfold pick_four_corners, bind.
    change 2500%nat with (S 2499). rewrite sample_exterior_empty.
    reflexivity. }
  intro H4.
  assert (Es : exists pts, sample_exterior K (GPolygon shell) 2500 = Ok pts).
  { eexists. apply sample_exterior_ring.
    intro E. rewrite E in H4. simpl in H4. lia. }
  destruct Es as [pts Es].
  unfold pick_four_corners, bind, bbox_centre. rewrite Es.
  destruct (bounds (GPolygon shell)) as [[[minx miny] maxx] maxy] eqn:Eb.
  eexists. exists pts. split; [reflexivity|]. split; [reflexivity|]. split.
  - rewrite length_map. unfold corner_indices. rewrite Eb.
    destruct (curvature_peaks K pts 5) as [idx score].
    rewrite length_app.
    match goal with
    | |- (length (pick_two_by_long ?f ?m ?u)
          + length (pick_two_by_long ?f ?m ?l) <= 4)%nat =>
        pose proof (pick_two_by_long_length f m u);
        pose proof (pick_two_by_long_length f m l)
    end. lia.
  - intros p Hp. apply in_map_iff in Hp. destruct Hp as [i [<- Hi]].
    apply corner_indices_candidates in Hi. apply candidates_top in Hi.
    apply In_firstn_In in Hi.
    unfold curvature_peaks in Hi. cbn [fst] in Hi.
    apply argsort_In in Hi. rewrite !length_map, length_seq in Hi.
    unfold at_index. now apply nth_In.
Qed.

(** ** Pins in order *)

Lemma default_pins_filter (K : Kernel) (poly : Geometry) (axis_is_x : bool)
    (x_center : option Q) (pin_diam : Q) :
  default_pins K poly axis_is_x x_center pin_diam
  = map (fun p : point => (fst p, snd p, 0.5 * pin_diam))
      (filter (fun p : point =>
                 contains K poly (buffer K (GPoint p) (0.5 * pin_diam * 1.2)))
              (pin_candidates poly axis_is_x)).
Proof.
  unfold default_pins, pin_candidates.
  destruct (bounds poly) as [[[minx miny] maxx] maxy].
  destruct axis_is_x; simpl;
    repeat match goal with
           | |- context [contains K poly ?g] =>
               destruct (contains K poly g); simpl
           end; reflexivity.
Qed.

Lemma StronglySorted_filter {A : Type} (R : A -> A -> Prop) (f : A -> bool)
    (l : list A) :
  StronglySorted R l -> StronglySorted R (filter f l).
Proof.
  induction 1 as [|x t Hs IH Hall]; simpl; [constructor|].
  destruct (f x); [|exact IH]. constructor; [exact IH|].
  apply Forall_forall. intros y Hy. apply filter_In in Hy.
  rewrite Forall_forall in Hall. now apply Hall.
Qed.

Lemma bounds_ordered (g : Geometry) :
  let '(minx, miny, maxx, maxy) := bounds g in minx <= maxx /\ miny <= maxy.
Proof.
  unfold bounds. split; apply Qmin_list_le_max.
Qed.

(** X11.  The holes of [default_pins] do not depend on [x_center].  They
    come in non-decreasing order along the length axis, lie on the
    lateral centreline of the bounding box and within its extent along
    the length axis. *)
Theorem default_pins_in_order (K : Kernel) (poly : Geometry)
    (axis_is_x : bool) (x_center x_center' : option Q) (pin_diam : Q) :
  let holes := default_pins K poly axis_is_x x_center pin_diam in
  let lmin := fst (long_extent poly axis_is_x) in
  let lmax := snd (long_extent poly axis_is_x) in
  default_pins K poly axis_is_x x_center' pin_diam = holes /\
  StronglySorted
    (fun h h' : Q * Q * Q =>
       longcoord axis_is_x (fst h) <= longcoord axis_is_x (fst h')) holes /\
  Forall
    (fun h : Q * Q * Q =>
       side axis_is_x (fst h) = side axis_is_x (bbox_centre poly) /\
       lmin <= longcoord axis_is_x (fst h) <= lmax) holes.
Proof.
  cbv zeta. split; [reflexivity|].
  rewrite default_pins_filter.
  pose proof (bounds_ordered poly) as Hb.
  unfold long_extent, bbox_centre, pin_candidates.
  destruct (bounds poly) as [[[minx miny] maxx] maxy]. destruct Hb as [Hx Hy].
  split.
  - apply (StronglySorted_map_in
             (fun p p' : point =>
                longcoord axis_is_x p <= longcoord axis_is_x p')).
    + intros p p' _ _ H. exact H.
    + apply StronglySorted_filter.
      destruct axis_is_x; repeat constructor; unfold longcoord, px, py;
        simpl; lra.
  - apply Forall_forall. intros h Hh. apply in_map_iff in Hh.
    destruct Hh as [p [<- Hp]]. apply filter_In in Hp. destruct Hp as [Hp _].
    destruct axis_is_x; simpl in Hp;
      destruct Hp as [<-|[<-|[<-|[]]]];
      unfold side, longcoord, px, py; simpl; split; try reflexivity; lra.
Qed.

(** X12.  The flat cut at a corner by [main].  Its cut line lies [depth]
    times the squared length of the normalized normal behind the corner,
    so a corner is on the removed side for a depth that is not negative,
    strictly for a positive depth and a normal that does not normalize to
    zero.  With the length along x and a base direction of non-negative
    components the normal points away from the centre.  With the length
    along y the two signs are exchanged: for a corner whose offsets from
    the centre differ in sign the normal points towards the centre. *)
Theorem corner_flat_geometry (K : Kernel) (axis_is_x : bool)
    (base c centre : point) (depth : Q) :
  let n_out := corner_normal axis_is_x base c centre in
  let p0 := corner_anchor K c n_out depth in
  let u := normalize K n_out in
  offset p0 u c == depth * dot u u /\
  (0 <= depth -> 0 <= offset p0 n_out c) /\
  (0 < depth -> 0 < dot u u -> 0 < offset p0 n_out c) /\
  (0 <= px base -> 0 <= py base ->
   (axis_is_x = true -> 0 <= dot n_out (vsub c centre)) /\
   (axis_is_x = false ->
    (px c - px centre < 0 <= py c - py centre \/
     py c - py centre < 0 <= px c - px centre) ->
    dot n_out (vsub c centre) <= 0)).
Proof.
  cbv zeta.
  set (n_out := corner_normal axis_is_x base c centre).
  destruct (normalize_scales K n_out) as [l [Hl [Hx Hy]]].
  unfold corner_anchor.
  destruct (normalize K n_out) as [ux uy] eqn:Eu. simpl in Hx, Hy.
  assert (Hoff : offset (px c - ux * depth, py c - uy * depth) n_out c
                 == depth * l * (px n_out * px n_out + py n_out * py n_out)).
  { unfold offset, dot, vsub, px, py in *. simpl.
    rewrite Hx, Hy. ring. }
  assert (Hsq : 0 <= px n_out * px n_out + py n_out * py n_out) by nra.
  split; [|split; [|split]].
  - unfold offset, dot, vsub, px, py. simpl. ring.
  - intro Hd. rewrite Hoff.
    apply Qmult_le_0_compat; [now apply Qmult_le_0_compat|exact Hsq].
  - intros Hd Hu. rewrite Hoff.
    assert (Huu : dot (ux, uy) (ux, uy)
                  == l * l * (px n_out * px n_out + py n_out * py n_out)).
    { unfold dot, px, py in *. simpl. rewrite Hx, Hy. ring. }
    rewrite Huu in Hu.
    assert (Hl0 : 0 < l).
    { destruct (Qlt_le_dec 0 l) as [|Hle]; [assumption|].
      assert (l == 0) by lra.
      exfalso. rewrite H in Hu. nra. }
    assert (Hn : 0 < px n_out * px n_out + py n_out * py n_out).
    { destruct (Qlt_le_dec 0 (px n_out * px n_out + py n_out * py n_out))
        as [|Hle]; [assumption|].
      assert (H : px n_out * px n_out + py n_out * py n_out == 0) by lra.
      exfalso. rewrite H in Hu. nra. }
    apply Qmult_lt_0_compat; [now apply Qmult_lt_0_compat|exact Hn].
  - intros Hb0 Hb1. unfold n_out, corner_normal, dot, vsub, px, py.
    cbn [fst snd].
    set (dx := fst c - fst centre). set (dy := snd c - snd centre).
    set (b0 := fst base) in *. set (b1 := snd base) in *.
    unfold px, py in Hb0, Hb1. fold b0 in Hb0. fold b1 in Hb1.
    split.
    + intros ->.
      destruct (Qle_bool 0 dx) eqn:Ex; destruct (Qle_bool 0 dy) eqn:Ey;
        try apply Qle_bool_iff in Ex; try apply Qle_bool_iff in Ey;
        try apply Qle_bool_false in Ex; try apply Qle_bool_false in Ey;
        cbn [fst snd].
      * assert (0 <= b0 * dx) by (apply Qmult_le_0_compat; assumption).
        assert (0 <= b1 * dy) by (apply Qmult_le_0_compat; assumption). lra.
      * assert (0 <= b0 * dx) by (apply Qmult_le_0_compat; assumption).
        assert (0 <= b1 * - dy) by (apply Qmult_le_0_compat; lra). lra.
      * assert (0 <= b0 * - dx) by (apply Qmult_le_0_compat; lra).
        assert (0 <= b1 * dy) by (apply Qmult_le_0_compat; assumption). lra.
      * assert (0 <= b0 * - dx) by (apply Qmult_le_0_compat; lra).
        assert (0 <= b1 * - dy) by (apply Qmult_le_0_compat; lra). lra.
    + intros -> Hq.
      destruct (Qle_bool 0 dx) eqn:Ex; destruct (Qle_bool 0 dy) eqn:Ey;
        try apply Qle_bool_iff in Ex; try apply Qle_bool_iff in Ey;
        try apply Qle_bool_false in Ex; try apply Qle_bool_false in Ey;
        cbn [fst snd]; destruct Hq as [[H1 H2]|[H1 H2]]; try lra.
      * assert (0 <= b1 * dx) by (apply Qmult_le_0_compat; assumption).
        assert (0 <= b0 * - dy) by (apply Qmult_le_0_compat; lra). lra.
      * assert (0 <= b1 * - dx) by (apply Qmult_le_0_compat; lra).
        assert (0 <= b0 * dy) by (apply Qmult_le_0_compat; assumption). lra.
Qed.

(** ** The flats together *)

Lemma clip_area_le (K : Kernel) (poly : Geometry) (p0 n_out : point)
    (out : Geometry) :
  adds_no_area K poly (half_plane_polygon K p0 n_out true 10000.0) ->
  clip_with_flat K poly p0 n_out = Ok out ->
  area out <= area poly.
Proof.
  unfold adds_no_area. intros Hk. rewrite clip_with_flat_cases. cbv zeta.
  destruct (is_empty _) eqn:Ee; [discriminate|].
  destruct (intersection K poly _) as [p|cs|shell|polys|gs] eqn:Eo;
    try (intro H; inversion H; subst out; exact Hk).
  destruct (largest_component polys (multipolygon_nonempty _ Ee))
    as [shell [Hm [Hin _]]].
  rewrite Hm. intro H. inversion H; subst out. clear H.
  eapply Qle_trans; [|exact Hk]. simpl.
  apply Qsum_member; [|now apply in_map].
  intros y Hy. apply in_map_iff in Hy. destruct Hy as [s [<- _]].
  apply ring_area_nonneg.
Qed.

Lemma corner_flats_raise (K : Kernel) (axis_is_x : bool)
    (base centre : point) (depth : Q) (corners : list point) (e : exn) :
  fold_left
    (fun acc c =>
       poly <- acc ;;
       clip_with_flat K poly
         (corner_anchor K c (corner_normal axis_is_x base c centre) depth)
         (corner_normal axis_is_x base c centre))
    corners (Raise e) = Raise e.
Proof.
  induction corners as [|c t IH]; [reflexivity|]. simpl. exact IH.
Qed.

Lemma corner_flats_area_le (K : Kernel) (axis_is_x : bool)
    (base centre : point) (depth : Q) (corners : list point)
    (poly out : Geometry) :
  (forall a b, adds_no_area K a b) ->
  corner_flats K poly axis_is_x base centre depth corners = Ok out ->
  area out <= area poly.
Proof.
  intro Hk. unfold corner_flats. revert poly.
  induction corners as [|c t IH]; intros poly H.
  - simpl in H. inversion H; subst. apply Qle_refl.
  - simpl in H.
    destruct (clip_with_flat K poly
                (corner_anchor K c (corner_normal axis_is_x base c centre) depth)
                (corner_normal axis_is_x base c centre)) as [poly'|e] eqn:Ec.
    + eapply Qle_trans; [apply (IH poly' H)|].
      eapply clip_area_le; [apply Hk|exact Ec].
    + rewrite corner_flats_raise in H. discriminate.
Qed.

(** X13.  The polygon left by all the flats of [main] is no larger than
    the outline they started from, the kernel's intersection never being
    larger than its first operand. *)
Theorem cut_flats_never_adds_area (K : Kernel) (R : Runtime)
    (poly : Geometry) (args : Args) (out : Geometry) :
  (forall a b : Geometry, adds_no_area K a b) ->
  cut_flats K R poly args = Ok out ->
  area out <= area poly.
Proof.
  intros Hk. unfold cut_flats, bind.
  destruct (neck_end_flats K poly _ args) as [poly1|e] eqn:En; [|discriminate].
  assert (H1 : area poly1 <= area poly).
  { unfold neck_end_flats, bind in En.
    destruct (bounds poly) as [[[minx miny] maxx] maxy].
    destruct (String.eqb (axis args) "x");
      match type of En with
      | match clip_with_flat K poly ?p ?n with _ => _ end = _ =>
          destruct (clip_with_flat K poly p n) as [q|e] eqn:E1;
          [|discriminate]
      end;
      (eapply Qle_trans;
       [eapply clip_area_le; [apply Hk|exact En]
       |eapply clip_area_le; [apply Hk|exact E1]]). }
  destruct (pick_four_corners K poly1 _) as [[corners centre]|e];
    [|discriminate].
  intro H. apply corner_flats_area_le in H; [|exact Hk].
  eapply Qle_trans; eassumption.
Qed.

(** ** What [main] leaves on disk *)

Lemma write_cases (out_path : string) (poly : Geometry)
    (holes : list (Q * Q * Q)) (fs : Files) :
  (exists coords : list point,
      write_polygon_and_holes_to_dxf out_path poly holes "CUT" "PINS" fs
      = (fs ++ [(out_path, LwPolyline coords true "CUT" :: circles_of holes)],
         Ok tt)) \/
  (exists e : exn,
      write_polygon_and_holes_to_dxf out_path poly holes "CUT" "PINS" fs
      = (fs, Raise e)).
Proof.
  unfold write_polygon_and_holes_to_dxf.
  destruct (exterior_coords poly) as [coords|e].
  - left. exists coords. reflexivity.
  - right. exists e. reflexivity.
Qed.

(** X14.  [main] adds to the files, in this order, the full mold and the
    two halves, and every file written is a closed outline on layer CUT
    followed by the same circles.  All three are written exactly when
    [main] succeeds; a failure leaves the files written before it, none
    at all when reading the outline or cutting a flat fails. *)
Theorem main_writes_in_order (K : Kernel) (R : Runtime) (args : Args)
    (msp : list Entity) (fs : Files) :
  let names := [(out_prefix args ++ "_full.dxf")%string;
                (out_prefix args ++ "_halfA.dxf")%string;
                (out_prefix args ++ "_halfB.dxf")%string] in
  exists (written : Files) (holes : list (Q * Q * Q)),
    fst (main K R args msp fs) = fs ++ written /\
    map fst written = firstn (length written) names /\
    (snd (main K R args msp fs) = Ok tt <-> length written = 3%nat) /\
    Forall (fun f => exists coords : list point,
                snd f = LwPolyline coords true "CUT" :: circles_of holes)
           written /\
    (forall e : exn,
        (poly <- read_first_closed_lwpolyline_as_polygon K R msp ;;
         cut_flats K R poly args) = Raise e ->
        written = [] /\ snd (main K R args msp fs) = Raise e).
Proof.
  cbv zeta. unfold main.
  destruct (poly <- read_first_closed_lwpolyline_as_polygon K R msp ;;
            cut_flats K R poly args) as [poly|e0].
  2:{ exists [], []. cbn [fst snd]. rewrite app_nil_r.
      split; [reflexivity|]. split; [reflexivity|].
      split; [split; discriminate|]. split; [constructor|].
      intros e H. inversion H. split; reflexivity. }
  set (holes := default_pins K poly _ None (pin_diam_mm args)).
  set (full := (out_prefix args ++ "_full.dxf")%string).
  set (nameA := (out_prefix args ++ "_halfA.dxf")%string).
  set (nameB := (out_prefix args ++ "_halfB.dxf")%string).
  destruct (write_cases full poly holes fs) as [[c0 E0]|[e E0]]; rewrite E0.
  2:{ exists [], holes. cbn [fst snd]. rewrite app_nil_r.
      split; [reflexivity|]. split; [reflexivity|].
      split; [split; discriminate|]. split; [constructor|]. discriminate. }
  set (docF := (full, LwPolyline c0 true "CUT" :: circles_of holes)).
  assert (HF : exists coords : list point,
             snd docF = LwPolyline coords true "CUT" :: circles_of holes)
    by (now exists c0).
  destruct (split_halves K poly _) as [[halfA halfB]|e].
  2:{ exists [docF], holes. cbn [fst snd length firstn map].
      split; [reflexivity|]. split; [reflexivity|].
      split; [split; discriminate|]. split; [now repeat constructor|].
      discriminate. }
  destruct (write_cases nameA halfA holes (fs ++ [docF])) as [[cA EA]|[e EA]];
    rewrite EA.
  2:{ exists [docF], holes. cbn [fst snd length firstn map].
      split; [reflexivity|]. split; [reflexivity|].
      split; [split; discriminate|]. split; [now repeat constructor|].
      discriminate. }
  set (docA := (nameA, LwPolyline cA true "CUT" :: circles_of holes)).
  assert (HA : exists coords : list point,
             snd docA = LwPolyline coords true "CUT" :: circles_of holes)
    by (now exists cA).
  destruct (write_cases nameB halfB holes ((fs ++ [docF]) ++ [docA]))
    as [[cB EB]|[e EB]]; rewrite EB.
  2:{ exists [docF; docA], holes. cbn [fst snd length firstn map].
      split; [now rewrite <- app_assoc|]. split; [reflexivity|].
      split; [split; discriminate|]. split; [now repeat constructor|].
      discriminate. }
  set (docB := (nameB, LwPolyline cB true "CUT" :: circles_of holes)).
  exists [docF; docA; docB], holes. cbn [fst snd length firstn map].
  split; [now rewrite <- !app_assoc|]. split; [reflexivity|].
  split; [split; reflexivity|]. split; [|discriminate].
  repeat constructor; try assumption. now exists cB.
Qed.

Lemma ok_unwrap {A : Type} (r : result A) (d : A) :
  is_ok r = true -> r = Ok (unwrap d r).
Proof. destruct r; [reflexivity|discriminate]. Qed.

Lemma Qsum_nonneg (l : list Q) : Forall (Qle 0) l -> 0 <= Qsum l.
Proof.
  induction 1 as [|x t Hx Ht IH]; simpl; [apply Qle_refl|lra].
Qed.

Lemma area_nonneg : forall g : Geometry, 0 <= area g.
Proof.
  fix IH 1. intros [p|cs|shell|polys|gs]; simpl.
  - apply Qle_refl.
  - apply Qle_refl.
  - apply ring_area_nonneg.
  - apply Qsum_nonneg. apply Forall_forall. intros y Hy.
    apply in_map_iff in Hy. destruct Hy as [s [<- _]].
    apply ring_area_nonneg.
  - apply Qsum_nonneg. induction gs as [|g gs IHgs]; simpl; constructor.
    + apply IH.
    + exact IHgs.
Qed.

Lemma checked_adds_no_area (a b : Geometry) : adds_no_area RefHost.checked a b.
Proof.
  unfold adds_no_area. simpl. unfold RefHost.checked_intersection.
  destruct (Qle_bool (area (Ref.intersection a b)) (area a)) eqn:E.
  - now apply Qle_bool_iff.
  - apply Qle_trans with 0; [|apply area_nonneg].
    apply Qle_bool_iff. reflexivity.
Qed.

(** X2 on a modelspace where the square, first of two outlines of
    area 4, is chosen. *)
Lemma read_picks_largest_witness :
  exists (before : list Entity) (e : Entity) (after : list Entity),
    sample_doc = before ++ e :: after /\
    closed_points e = Some [(0, 0); (2, 0); (2, 2); (0, 2); (0, 0)] /\
    Forall (fun e' => forall pts, closed_points e' = Some pts ->
              bbox_score pts
              < bbox_score [(0, 0); (2, 0); (2, 2); (0, 2); (0, 0)]) before /\
    Forall (fun e' => forall pts, closed_points e' = Some pts ->
              bbox_score pts
              <= bbox_score [(0, 0); (2, 0); (2, 2); (0, 2); (0, 0)]) after /\
    (3 <= length [(0, 0); (2, 0); (2, 2); (0, 2); (0, 0)])%nat /\
    Qeq_point (hd (0, 0) [(0, 0); (2, 0); (2, 2); (0, 2); (0, 0)])
              (last [(0, 0); (2, 0); (2, 2); (0, 2); (0, 0)] (0, 0)) = true.
Proof.
  apply (read_picks_largest sample_doc). vm_compute. reflexivity.
Defined.

(** X3 on the 400 x 200 rectangle and one pin hole. *)
Lemma write_then_read_witness :
  exists msp : list Entity,
    write_polygon_and_holes_to_dxf "mold_full.dxf" rect_400_200
      [(100, 100, 3)] "CUT" "PINS" []
    = ([] ++ [("mold_full.dxf"%string, msp)], Ok tt) /\
    read_first_closed_lwpolyline_as_polygon Ref.kernel RefHost.runtime msp
    = Ok (GPolygon (close_ring [(0, 0); (400, 0); (400, 200); (0, 200)])).
Proof.
  apply (write_then_read Ref.kernel RefHost.runtime "mold_full.dxf"
           [(0, 0); (400, 0); (400, 200); (0, 200)] [(100, 100, 3)]
           "CUT" "PINS" []).
  - vm_compute. lia.
  - vm_compute. reflexivity.
  - vm_compute. reflexivity.
  - vm_compute. reflexivity.
Defined.

(** X5 on the neck flat of the scenario. *)
Lemma half_plane_polygon_sides_witness :
  Forall (fun v => 0 <= offset (338, 100) (1, 0) v)
         (remove_quad (338, 100) (normalize Ref.kernel (1, 0)) 10000.0) /\
  area (half_plane_polygon Ref.kernel (338, 100) (1, 0) true 10000.0)
  == 200000000.
Proof.
  destruct (half_plane_polygon_sides Ref.kernel (338, 100) (1, 0) 10000.0)
    as [_ [_ [H [_ [_ Ha]]]]]; [discriminate|].
  split; [exact H|]. vm_compute. reflexivity.
Defined.

(** X13 on the centred rectangle: what the flats of [axial_args] leave of
    it. *)
Lemma cut_flats_never_adds_area_witness :
  area (GPolygon [(20284 # 125, -100); (4104 # 25, -100); (4104 # 25, 100);
                  (20284 # 125, 100)])
  <= area rect_centred.
Proof.
  apply (cut_flats_never_adds_area RefHost.checked RefHost.runtime
           rect_centred axial_args).
  - exact checked_adds_no_area.
  - vm_compute. reflexivity.
Defined.

(** X10 on the rectangle. *)
Lemma four_corners_by_quadrant_witness :
  let cand := candidates (fst (curvature_peaks Ref.kernel rect_samples 5))
                         (band rect_400_200 true rect_samples) in
  let q := fun (up near : bool) (i : nat) =>
             quadrant true (mid_long rect_400_200 true) up near
                      (at_index rect_samples i) in
  exists u2 l2 : list nat,
    pick_four_corners Ref.kernel rect_400_200 true
    = Ok (map (at_index rect_samples) (u2 ++ l2), bbox_centre rect_400_200) /\
    side_choice cand (q true) u2 /\ side_choice cand (q false) l2.
Proof.
  apply (four_corners_by_quadrant Ref.kernel rect_400_200 true rect_samples).
  unfold rect_samples, rect_400_200.
  rewrite sample_exterior_ring by (cbv; discriminate). reflexivity.
Defined.
